(** * The write batch of node-rocksdb (deps/rocksdb/db/write_batch.cc)

    A shallow embedding of the write-batch container, of its replay loop
    [WriteBatch::Iterate] and of the memtable applier [MemTableInserter],
    with the properties the specification states about them.

    Conventions.
    - A [std::string] or [Slice] is a [list byte]; its [size()] is the
      list's length.
    - [uint32_t] and [uint64_t] values are integers in [Z] with the
      wrap-around written out ([wrap32], [wrap64]); [int] values are
      integers in [Z] read through [to_int], and an [int] addition that
      leaves the range is modelled as the two's-complement wrap-around. *)

From Stdlib.Strings Require Import Byte String.
From Stdlib Require Import ZArith List Bool Lia.
Import ListNotations.

Local Open Scope Z_scope.

Definition bytes := list byte.

(** ** Machine integers *)

Definition wrap32 (z : Z) : Z := z mod 2 ^ 32.
Definition wrap64 (z : Z) : Z := z mod 2 ^ 64.

(** The value of a [uint32_t] converted to [int]. *)
Definition to_int (u : Z) : Z := if u <? 2 ^ 31 then u else u - 2 ^ 32.

(** [int] addition. *)
Definition int_add (a b : Z) : Z := to_int (wrap32 (a + b)).

Definition byte_to_Z (b : byte) : Z := Z.of_N (Byte.to_N b).

Definition Z_to_byte (z : Z) : byte :=
  match Byte.of_N (Z.to_N (z mod 256)) with
  | Some b => b
  | None => x00
  end.

(** ** Codec primitives (util/coding.h) *)

Module Coding.

(** Modelled from the spec: util/coding.h and util/coding.cc are not among
    the sources.  The spec names "fixed-width and variable-length integer
    encode/decode" and the header comment of write_batch.cc gives the
    widths ([sequence: fixed64], [count: fixed32], [len: varint32]).  A
    fixed-width integer is stored least significant byte first. *)
Fixpoint EncodeFixed (n : nat) (v : Z) : bytes :=
  match n with
  | O => []
  | S n' => Z_to_byte v :: EncodeFixed n' (Z.shiftr v 8)
  end.

Fixpoint DecodeFixed (n : nat) (p : bytes) : Z :=
  match n with
  | O => 0
  | S n' => Z.lor (byte_to_Z (hd x00 p)) (Z.shiftl (DecodeFixed n' (tl p)) 8)
  end.

Definition EncodeFixed32 (v : Z) : bytes := EncodeFixed 4 (wrap32 v).
Definition DecodeFixed32 (p : bytes) : Z := DecodeFixed 4 p.
Definition EncodeFixed64 (v : Z) : bytes := EncodeFixed 8 (wrap64 v).
Definition DecodeFixed64 (p : bytes) : Z := DecodeFixed 8 p.

(** Modelled from the spec: the "unsigned variable-length integer" of a
    length prefix, a [varint32]: seven bits a byte, the low group first,
    the top bit of a byte set when another byte follows; at most five
    bytes. *)
Fixpoint EncodeVarint32_from (n : nat) (v : Z) : bytes :=
  match n with
  | O => [Z_to_byte v]
  | S n' =>
      if v <? 128 then [Z_to_byte v]
      else Z_to_byte (Z.lor v 128) :: EncodeVarint32_from n' (Z.shiftr v 7)
  end.

Definition EncodeVarint32 (v : Z) : bytes := EncodeVarint32_from 4 v.

Definition PutVarint32 (dst : bytes) (v : Z) : bytes :=
  dst ++ EncodeVarint32 (wrap32 v).

(** Modelled from the spec: the decoder of a [varint32]; it fails when the
    input ends inside the integer or when the fifth byte still announces a
    successor.  On success the input is advanced past the integer. *)
Fixpoint GetVarint32_from (n : nat) (shift result : Z) (p : bytes)
  : option (Z * bytes) :=
  match n, p with
  | S n', b :: p' =>
      let byte := byte_to_Z b in
      if Z.testbit byte 7
      then GetVarint32_from n' (shift + 7)
             (Z.lor result (wrap32 (Z.shiftl (Z.land byte 127) shift))) p'
      else Some (Z.lor result (wrap32 (Z.shiftl byte shift)), p')
  | _, _ => None
  end.

Definition GetVarint32 (input : bytes) : option (Z * bytes) :=
  GetVarint32_from 5 0 0 input.

(** Modelled from the spec: a length-prefixed byte string is its length as
    a [varint32], then the raw bytes. *)
Definition PutLengthPrefixedSlice (dst : bytes) (value : bytes) : bytes :=
  PutVarint32 dst (Z.of_nat (length value)) ++ value.

(** Modelled from the spec: the multi-part variant writes the total length
    of the fragments (summed in a [uint32_t]) and then every fragment in
    order, without concatenating them first. *)
Definition PutLengthPrefixedSliceParts (dst : bytes) (parts : list bytes)
  : bytes :=
  let total_bytes :=
    fold_left (fun acc p => wrap32 (acc + Z.of_nat (length p))) parts 0 in
  fold_left (fun d p => d ++ p) parts (PutVarint32 dst total_bytes).

(** Modelled from the spec: decoding a length-prefixed byte string fails
    when the length does not decode or when fewer bytes remain than the
    length announces; on success it returns the string and the rest of
    the input. *)
Definition GetLengthPrefixedSlice (input : bytes) : option (bytes * bytes) :=
  match GetVarint32 input with
  | Some (len, input') =>
      if Z.of_nat (length input') >=? len
      then Some (firstn (Z.to_nat len) input', skipn (Z.to_nat len) input')
      else None
  | None => None
  end.

End Coding.

(** ** The batch and its header (WriteBatchInternal) *)

(** [WriteBatch::rep_]: the header (an 8-byte sequence number, then a
    4-byte count) followed by the records. *)
Record WriteBatch : Type := { rep_ : bytes }.

Inductive Status : Type :=
| OK
| Corruption (msg : string).

(** WriteBatch header has an 8-byte sequence number followed by a 4-byte
    count. *)
Definition kHeader : nat := 12.

(** Modelled from the spec: the record tags of db/dbformat.h, which is not
    among the sources; the spec asks for "distinct reserved values for
    Value/Deletion/Merge/LogData". *)
Definition kTypeDeletion : Z := 0.
Definition kTypeValue : Z := 1.
Definition kTypeMerge : Z := 2.
Definition kTypeLogData : Z := 3.

Module WriteBatchInternal.

(** [DecodeFixed32(b->rep_.data() + 8)], returned as an [int]. *)
Definition Count (b : WriteBatch) : Z :=
  to_int (Coding.DecodeFixed32 (skipn 8 (rep_ b))).

(** [EncodeFixed32(&b->rep_[8], n)]: the four bytes at offsets 8..11 are
    overwritten.  The source indexes a buffer that has its header; the
    statements below are about such buffers. *)
Definition SetCount (b : WriteBatch) (n : Z) : WriteBatch :=
  {| rep_ := firstn 8 (rep_ b) ++ Coding.EncodeFixed32 n ++ skipn 12 (rep_ b) |}.

Definition Sequence (b : WriteBatch) : Z := Coding.DecodeFixed64 (rep_ b).

Definition SetSequence (b : WriteBatch) (seq : Z) : WriteBatch :=
  {| rep_ := Coding.EncodeFixed64 seq ++ skipn 8 (rep_ b) |}.

(** [assert(contents.size() >= kHeader)] is a precondition; the contents
    are adopted as they are. *)
Definition SetContents (b : WriteBatch) (contents : bytes) : WriteBatch :=
  {| rep_ := contents |}.

Definition Append (dst src : WriteBatch) : WriteBatch :=
  let dst1 := SetCount dst (int_add (Count dst) (Count src)) in
  {| rep_ := rep_ dst1 ++ skipn kHeader (rep_ src) |}.

End WriteBatchInternal.

(** ** The handler interface (WriteBatch::Handler) *)

(** What a call of a handler method does to the handler's state [S]: it
    returns, it throws a C++ exception, or it ends the process (a failed
    assertion, a null pointer). *)
Inductive outcome (S : Type) : Type :=
| Normal (s : S)
| Thrown (what : string) (s : S)
| Fatal (what : string).
Arguments Normal {S} s.
Arguments Thrown {S} what s.
Arguments Fatal {S} what.

Module Handler.

Record t (S : Type) : Type := {
  Put : bytes -> bytes -> S -> outcome S;
  Delete : bytes -> S -> outcome S;
  Merge : bytes -> bytes -> S -> outcome S;
  LogData : bytes -> S -> outcome S;
  Continue : S -> bool * S
}.
Arguments Put {S} _ _ _ _.
Arguments Delete {S} _ _ _.
Arguments Merge {S} _ _ _ _.
Arguments LogData {S} _ _ _.
Arguments Continue {S} _ _.

(** [WriteBatch::Handler::Merge]: [throw std::runtime_error(...)]. *)
Definition default_Merge {S : Type} (key value : bytes) (s : S) : outcome S :=
  Thrown "Handler::Merge not implemented!" s.

(** [WriteBatch::Handler::LogData]: blobs are ignored. *)
Definition default_LogData {S : Type} (blob : bytes) (s : S) : outcome S :=
  Normal s.

(** [WriteBatch::Handler::Continue]. *)
Definition default_Continue {S : Type} (s : S) : bool * S := (true, s).

(** A handler that overrides only the two pure virtual methods. *)
Definition with_defaults {S : Type}
    (put : bytes -> bytes -> S -> outcome S)
    (delete : bytes -> S -> outcome S) : t S :=
  {| Put := put; Delete := delete; Merge := default_Merge;
     LogData := default_LogData; Continue := default_Continue |}.

End Handler.

(** ** The container and the dispatcher (WriteBatch) *)

(** One mutation call on a batch; also the record a handler receives. *)
Inductive Op : Type :=
| OpPut (key value : bytes)
| OpDelete (key : bytes)
| OpMerge (key value : bytes)
| OpLogData (blob : bytes).

(** How a dispatch ends: [Iterate] returns a status, an exception of the
    handler leaves it, or the process ends. *)
Inductive result (S : Type) : Type :=
| Returned (st : Status) (s : S)
| Raised (what : string) (s : S)
| Aborted (what : string).
Arguments Returned {S} st s.
Arguments Raised {S} what s.
Arguments Aborted {S} what.

(** One turn of the loop body of [Iterate]. *)
Inductive step_result (S : Type) : Type :=
| Next (input : bytes) (found : Z) (s : S)
| Return (st : Status) (s : S)
| Throw (what : string) (s : S)
| Abort (what : string).
Arguments Next {S} input found s.
Arguments Return {S} st s.
Arguments Throw {S} what s.
Arguments Abort {S} what.

Module WriteBatch.

Definition Clear (b : WriteBatch) : WriteBatch :=
  {| rep_ := repeat x00 kHeader |}.

(** The constructor: [rep_.reserve(...); Clear()]. *)
Definition new : WriteBatch := Clear {| rep_ := [] |}.

Definition Count (b : WriteBatch) : Z := WriteBatchInternal.Count b.

Definition push_back (rep : bytes) (c : Z) : bytes := rep ++ [Z_to_byte c].

Definition Put (b : WriteBatch) (key value : bytes) : WriteBatch :=
  let b1 := WriteBatchInternal.SetCount b (int_add (WriteBatchInternal.Count b) 1) in
  let r := push_back (rep_ b1) kTypeValue in
  let r := Coding.PutLengthPrefixedSlice r key in
  {| rep_ := Coding.PutLengthPrefixedSlice r value |}.

(** [Put(const SliceParts& key, const SliceParts& value)]. *)
Definition PutParts (b : WriteBatch) (key value : list bytes) : WriteBatch :=
  let b1 := WriteBatchInternal.SetCount b (int_add (WriteBatchInternal.Count b) 1) in
  let r := push_back (rep_ b1) kTypeValue in
  let r := Coding.PutLengthPrefixedSliceParts r key in
  {| rep_ := Coding.PutLengthPrefixedSliceParts r value |}.

Definition Delete (b : WriteBatch) (key : bytes) : WriteBatch :=
  let b1 := WriteBatchInternal.SetCount b (int_add (WriteBatchInternal.Count b) 1) in
  let r := push_back (rep_ b1) kTypeDeletion in
  {| rep_ := Coding.PutLengthPrefixedSlice r key |}.

Definition Merge (b : WriteBatch) (key value : bytes) : WriteBatch :=
  let b1 := WriteBatchInternal.SetCount b (int_add (WriteBatchInternal.Count b) 1) in
  let r := push_back (rep_ b1) kTypeMerge in
  let r := Coding.PutLengthPrefixedSlice r key in
  {| rep_ := Coding.PutLengthPrefixedSlice r value |}.

Definition PutLogData (b : WriteBatch) (blob : bytes) : WriteBatch :=
  let r := push_back (rep_ b) kTypeLogData in
  {| rep_ := Coding.PutLengthPrefixedSlice r blob |}.

Definition apply_op (b : WriteBatch) (op : Op) : WriteBatch :=
  match op with
  | OpPut key value => Put b key value
  | OpDelete key => Delete b key
  | OpMerge key value => Merge b key value
  | OpLogData blob => PutLogData b blob
  end.

(** A sequence of mutation calls, first call first. *)
Definition apply_ops (ops : list Op) (b : WriteBatch) : WriteBatch :=
  fold_left apply_op ops b.

(** What follows a handler call in the loop body: [found++] (or not) and
    [break]. *)
Definition after_call {S : Type} (o : outcome S) (input : bytes) (found : Z)
  : step_result S :=
  match o with
  | Normal s => Next input found s
  | Thrown what s => Throw what s
  | Fatal what => Abort what
  end.

(** The body of the [while] loop, entered with a non-empty [input] after
    [handler->Continue()] returned true: the tag byte is removed and the
    [switch] runs. *)
Definition Iterate_body {S : Type} (handler : Handler.t S)
    (tag : byte) (input : bytes) (found : Z) (s : S) : step_result S :=
  let tag := byte_to_Z tag in
  if tag =? kTypeValue then
    match Coding.GetLengthPrefixedSlice input with
    | Some (key, input) =>
        match Coding.GetLengthPrefixedSlice input with
        | Some (value, input) =>
            after_call (Handler.Put handler key value s) input (int_add found 1)
        | None => Return (Corruption "bad WriteBatch Put") s
        end
    | None => Return (Corruption "bad WriteBatch Put") s
    end
  else if tag =? kTypeDeletion then
    match Coding.GetLengthPrefixedSlice input with
    | Some (key, input) =>
        after_call (Handler.Delete handler key s) input (int_add found 1)
    | None => Return (Corruption "bad WriteBatch Delete") s
    end
  else if tag =? kTypeMerge then
    match Coding.GetLengthPrefixedSlice input with
    | Some (key, input) =>
        match Coding.GetLengthPrefixedSlice input with
        | Some (value, input) =>
            after_call (Handler.Merge handler key value s) input (int_add found 1)
        | None => Return (Corruption "bad WriteBatch Merge") s
        end
    | None => Return (Corruption "bad WriteBatch Merge") s
    end
  else if tag =? kTypeLogData then
    match Coding.GetLengthPrefixedSlice input with
    | Some (blob, input) =>
        after_call (Handler.LogData handler blob s) input found
    | None => Return (Corruption "bad WriteBatch Blob") s
    end
  else Return (Corruption "unknown WriteBatch tag") s.

(** The statement after the loop. *)
Definition Iterate_finish {S : Type} (count found : Z) (s : S) : result S :=
  if negb (found =? count)
  then Returned (Corruption "WriteBatch has wrong count") s
  else Returned OK s.

(** The [while] loop.  Every turn removes at least the tag byte, so a
    [fuel] above the length of [input] is never used up; [None] stands for
    a used-up [fuel] only. *)
Fixpoint Iterate_loop {St : Type} (fuel : nat) (handler : Handler.t St)
    (count : Z) (input : bytes) (found : Z) (s : St) : option (result St) :=
  match fuel with
  | O => None
  | S fuel' =>
      match input with
      | [] => Some (Iterate_finish count found s)
      | tag :: input' =>
          let (c, s1) := Handler.Continue handler s in
          if c then
            match Iterate_body handler tag input' found s1 with
            | Next input'' found' s' =>
                Iterate_loop fuel' handler count input'' found' s'
            | Return st s' => Some (Returned st s')
            | Throw what s' => Some (Raised what s')
            | Abort what => Some (Aborted what)
            end
          else Some (Iterate_finish count found s1)
      end
  end.

Definition Iterate {St : Type} (b : WriteBatch) (handler : Handler.t St) (s : St)
  : result St :=
  let input := rep_ b in
  if (length input <? kHeader)%nat
  then Returned (Corruption "malformed WriteBatch (too small)") s
  else
    let input := skipn kHeader input in
    match Iterate_loop (S (length input)) handler
            (WriteBatchInternal.Count b) input 0 s with
    | Some r => r
    | None => Aborted "unreachable"
    end.

(** A handler that records every call it receives, in order. *)
Definition recorder : Handler.t (list Op) :=
  {| Handler.Put := fun key value s => Normal (s ++ [OpPut key value]);
     Handler.Delete := fun key s => Normal (s ++ [OpDelete key]);
     Handler.Merge := fun key value s => Normal (s ++ [OpMerge key value]);
     Handler.LogData := fun blob s => Normal (s ++ [OpLogData blob]);
     Handler.Continue := Handler.default_Continue |}.

(** The number of calls other than [PutLogData]. *)
Fixpoint mutations (ops : list Op) : Z :=
  match ops with
  | [] => 0
  | OpLogData _ :: ops' => mutations ops'
  | _ :: ops' => 1 + mutations ops'
  end.

End WriteBatch.

(** ** The applier (MemTableInserter) *)

(** The kind of a memtable entry ([ValueType] as [mem_->Add] receives it). *)
Inductive ValueType : Type := TypeDeletion | TypeValue | TypeMerge.

Inductive UpdateStatus : Type := UPDATE_FAILED | UPDATED_INPLACE | UPDATED.

Inductive Tickers : Type :=
| NUMBER_KEYS_WRITTEN
| NUMBER_KEYS_UPDATED
| NUMBER_MERGE_FAILURES
| NUMBER_FILTERED_DELETES.

(** The collaborators of the applier, none of which is among the sources:
    the memtable ([MemTable::Add], [Update], [UpdateCallback],
    [CountSuccessiveMergeEntries]) and the point reads of the store
    ([DBImpl::Get], [DBImpl::KeyMayExist]).  A read is pinned to a snapshot
    number and sees the table as it is when the read runs. *)
Record Collaborators : Type := {
  MemTable : Type;
  Add : Z -> ValueType -> bytes -> bytes -> MemTable -> MemTable;
  Update : Z -> bytes -> bytes -> MemTable -> MemTable;
  UpdateCallback : Z -> bytes -> bytes -> MemTable -> bool * MemTable;
  CountSuccessiveMergeEntries : bytes -> Z -> MemTable -> Z;
  (** [db_->Get(ropts, key, &value)]: [s.ok()] and the value read. *)
  Get : Z -> bytes -> MemTable -> bool * bytes;
  KeyMayExist : Z -> bytes -> MemTable -> bool
}.

(** What [inplace_callback(existing, existing_size, delta, &merged)] leaves
    behind: its status, the existing buffer as it is after the call (cut
    to the size the callback set) and [merged_value]. *)
Record CallbackResult : Type := {
  cb_status : UpdateStatus;
  cb_existing : bytes;
  cb_merged : bytes
}.

(** The fields of [Options] the applier reads.  A null pointer is [None].
    [FullMerge] returns the merged value, or [None] for [false]. *)
Record Options : Type := {
  inplace_update_support : bool;
  inplace_callback : option (option bytes -> bytes -> CallbackResult);
  max_successive_merges : Z;
  merge_operator : option (bytes -> option bytes -> list bytes -> option bytes)
}.

Module MemTableInserter.

Section Inserter.

Variable C : Collaborators.

(** The members that change during a replay, and the ticks recorded in the
    metrics sink so far (oldest first). *)
Record t : Type := {
  sequence_ : Z;
  mem_ : MemTable C;
  ticks_ : list Tickers
}.

(** The members fixed by the constructor; [db_ != nullptr] is [has_db]. *)
Variable options_ : Options.
Variable has_db : bool.
Variable filter_deletes_ : bool.

(** Modelled from the spec: [RecordTick] of util/statistics.h, which is not
    among the sources, records one tick of a counter in the metrics
    sink. *)
Definition RecordTick (ticker : Tickers) (s : t) : t :=
  {| sequence_ := sequence_ s; mem_ := mem_ s; ticks_ := ticks_ s ++ [ticker] |}.

Definition mem_Add (type : ValueType) (key value : bytes) (s : t) : t :=
  {| sequence_ := sequence_ s;
     mem_ := Add C (sequence_ s) type key value (mem_ s);
     ticks_ := ticks_ s |}.

(** [sequence_++] on a [uint64_t]. *)
Definition bump (s : t) : t :=
  {| sequence_ := wrap64 (sequence_ s + 1); mem_ := mem_ s; ticks_ := ticks_ s |}.

Definition Put (key value : bytes) (s : t) : outcome t :=
  if negb (inplace_update_support options_) then
    Normal (bump (mem_Add TypeValue key value s))
  else
    match inplace_callback options_ with
    | None =>
        let s1 := {| sequence_ := sequence_ s;
                     mem_ := Update C (sequence_ s) key value (mem_ s);
                     ticks_ := ticks_ s |} in
        Normal (bump (RecordTick NUMBER_KEYS_UPDATED s1))
    | Some callback =>
        let (updated, mem1) := UpdateCallback C (sequence_ s) key value (mem_ s) in
        let s1 := {| sequence_ := sequence_ s; mem_ := mem1; ticks_ := ticks_ s |} in
        if updated then Normal (bump s1)
        else if negb has_db then Fatal "db_ is null"
        else
          (* key not found in memtable. Do sst get, update, add *)
          let (ok, prev_value) := Get C (sequence_ s1) key (mem_ s1) in
          let r := callback (if ok then Some prev_value else None) value in
          let prev := if ok then cb_existing r else prev_value in
          match cb_status r with
          | UPDATED_INPLACE =>
              Normal (bump (RecordTick NUMBER_KEYS_WRITTEN
                              (mem_Add TypeValue key prev s1)))
          | UPDATED =>
              Normal (bump (RecordTick NUMBER_KEYS_WRITTEN
                              (mem_Add TypeValue key (cb_merged r) s1)))
          | UPDATE_FAILED => Normal (bump s1)
          end
    end.

(** The first [if] of [Merge]: whether the operand is resolved eagerly. *)
Definition perform_merge (key : bytes) (s : t) : bool :=
  (max_successive_merges options_ >? 0) && has_db &&
  (CountSuccessiveMergeEntries C key (sequence_ s) (mem_ s)
     >=? max_successive_merges options_).

Definition Merge (key value : bytes) (s : t) : outcome t :=
  if perform_merge key s then
    (* 1) Get the existing value *)
    let get_value := snd (Get C (sequence_ s) key (mem_ s)) in
    (* 2) Apply this merge *)
    match merge_operator options_ with
    | None => Fatal "assert(merge_operator)"
    | Some FullMerge =>
        match FullMerge key (Some get_value) [value] with
        | None =>
            (* Failed to merge!  Store the delta in memtable *)
            Normal (bump (mem_Add TypeMerge key value
                            (RecordTick NUMBER_MERGE_FAILURES s)))
        | Some new_value =>
            (* 3) Add value to memtable *)
            Normal (bump (mem_Add TypeValue key new_value s))
        end
    end
  else
    (* Add merge operator to memtable *)
    Normal (bump (mem_Add TypeMerge key value s)).

Definition Delete (key : bytes) (s : t) : outcome t :=
  if filter_deletes_ then
    if negb has_db then Fatal "db_ is null"
    else if negb (KeyMayExist C (sequence_ s) key (mem_ s)) then
      Normal (RecordTick NUMBER_FILTERED_DELETES s)
    else Normal (bump (mem_Add TypeDeletion key [] s))
  else Normal (bump (mem_Add TypeDeletion key [] s)).

(** The applier as a handler: [LogData] and [Continue] are inherited. *)
Definition handler : Handler.t t :=
  {| Handler.Put := Put; Handler.Delete := Delete; Handler.Merge := Merge;
     Handler.LogData := Handler.default_LogData;
     Handler.Continue := Handler.default_Continue |}.

(** [WriteBatchInternal::InsertInto]. *)
Definition InsertInto (b : WriteBatch) (mem : MemTable C) : result t :=
  WriteBatch.Iterate b handler
    {| sequence_ := WriteBatchInternal.Sequence b; mem_ := mem; ticks_ := [] |}.

End Inserter.

Arguments sequence_ {C} _.
Arguments mem_ {C} _.
Arguments ticks_ {C} _.

End MemTableInserter.

(** A memtable that keeps the list of its entries, newest first, and a
    store with nothing below the memtable. *)
Module ListTable.

Definition entry : Type := (Z * ValueType * bytes * bytes)%type.

Definition bytes_eqb (a b : bytes) : bool :=
  if list_eq_dec Byte.byte_eq_dec a b then true else false.

Fixpoint count_merges (key : bytes) (m : list entry) : Z :=
  match m with
  | (_, TypeMerge, k, _) :: m' =>
      if bytes_eqb k key then 1 + count_merges key m' else 0
  | _ => 0
  end.

Definition collaborators : Collaborators :=
  {| MemTable := list entry;
     Add := fun seq type key value m => (seq, type, key, value) :: m;
     Update := fun seq key value m => (seq, TypeValue, key, value) :: m;
     UpdateCallback := fun seq key value m => (false, m);
     CountSuccessiveMergeEntries := fun key seq m => count_merges key m;
     Get := fun seq key m => (false, []);
     KeyMayExist := fun seq key m => false |}.

Definition no_options : Options :=
  {| inplace_update_support := false; inplace_callback := None;
     max_successive_merges := 0; merge_operator := None |}.

(** A merge function that appends the operands to the existing value. *)
Definition concat_merge (key : bytes) (existing : option bytes)
    (operands : list bytes) : option bytes :=
  Some (match existing with Some v => v | None => [] end ++ concat operands).

Definition merging_options (threshold : Z) : Options :=
  {| inplace_update_support := false; inplace_callback := None;
     max_successive_merges := threshold; merge_operator := Some concat_merge |}.

End ListTable.

(** ** Notions the statements use *)

(** The bytes one length-prefixed byte string adds to a buffer. *)
Definition lps (s : bytes) : bytes :=
  Coding.EncodeVarint32 (wrap32 (Z.of_nat (length s))) ++ s.

(** The bytes one mutation call adds after the header. *)
Definition encode_op (op : Op) : bytes :=
  match op with
  | OpPut key value => Z_to_byte kTypeValue :: lps key ++ lps value
  | OpDelete key => Z_to_byte kTypeDeletion :: lps key
  | OpMerge key value => Z_to_byte kTypeMerge :: lps key ++ lps value
  | OpLogData blob => Z_to_byte kTypeLogData :: lps blob
  end.

Definition encode_ops (ops : list Op) : bytes := flat_map encode_op ops.

(** A byte string whose length fits the [uint32_t] of its prefix. *)
Definition small (s : bytes) : Prop := Z.of_nat (length s) < 2 ^ 32.

Definition small_op (op : Op) : Prop :=
  match op with
  | OpPut key value | OpMerge key value => small key /\ small value
  | OpDelete key => small key
  | OpLogData blob => small blob
  end.

(** Whether a call counts in the header. *)
Definition is_mutation (op : Op) : bool :=
  match op with OpLogData _ => false | _ => true end.

(** The handler call the dispatcher makes for a decoded record. *)
Definition deliver {S : Type} (h : Handler.t S) (op : Op) (s : S) : outcome S :=
  match op with
  | OpPut key value => Handler.Put h key value s
  | OpDelete key => Handler.Delete h key s
  | OpMerge key value => Handler.Merge h key value s
  | OpLogData blob => Handler.LogData h blob s
  end.

(** The calls for a list of records, up to the first that does not
    return. *)
Fixpoint deliver_all {S : Type} (h : Handler.t S) (ops : list Op) (s : S)
  : outcome S :=
  match ops with
  | [] => Normal s
  | op :: ops' =>
      match deliver h op s with
      | Normal s' => deliver_all h ops' s'
      | o => o
      end
  end.

(** The loop of [Iterate] from a given point on, with the fuel [Iterate]
    gives it. *)
Definition Iterate_from {S : Type} (h : Handler.t S) (count : Z)
    (input : bytes) (found : Z) (s : S) : result S :=
  match WriteBatch.Iterate_loop (Datatypes.S (length input)) h count input found s with
  | Some r => r
  | None => Aborted "unreachable"
  end.

(** The found-counter after the records [ops] were dispatched. *)
Fixpoint found_after (found : Z) (ops : list Op) : Z :=
  match ops with
  | [] => found
  | op :: ops' =>
      found_after (if is_mutation op then int_add found 1 else found) ops'
  end.

(** A handler whose [Continue] is the inherited one. *)
Definition always_continues {S : Type} (h : Handler.t S) : Prop :=
  forall s, Handler.Continue h s = (true, s).

(** The batch of the spec's example: [Put("a","1")], [Delete("b")],
    [Merge("c","+1")], [PutLogData("meta")]. *)
Definition example_ops : list Op :=
  [OpPut ["a"%byte] ["1"%byte]; OpDelete ["b"%byte];
   OpMerge ["c"%byte] ["+"%byte; "1"%byte];
   OpLogData ["m"%byte; "e"%byte; "t"%byte; "a"%byte]].

(** [2^31] calls of [Delete] with an empty key. *)
Definition many_deletes : list Op := repeat (OpDelete []) (Z.to_nat (2 ^ 31)).

(** A key of [2^32] bytes [0xff]. *)
Definition long_key : bytes := xff :: repeat xff (Z.to_nat (2 ^ 32 - 1)).

(** An empty batch whose count field holds the bytes 00 00 00 80. *)
Definition half_full : WriteBatch :=
  WriteBatchInternal.SetContents WriteBatch.new (repeat x00 8 ++ [x00; x00; x00; x80]).

(** A header with sequence number 7 and count 2, and one with sequence
    number 9 and count 3, each followed by some body bytes. *)
Definition batch_7_2 : WriteBatch :=
  {| rep_ := [x07; x00; x00; x00; x00; x00; x00; x00; x02; x00; x00; x00;
              x00; x01; "a"%byte; x00; x01; "b"%byte] |}.
Definition batch_9_3 : WriteBatch :=
  {| rep_ := [x09; x00; x00; x00; x00; x00; x00; x00; x03; x00; x00; x00;
              x00; x00; x00; x00; x00; x00] |}.

(** Whether [n] length-prefixed byte strings can be decoded from the head
    of [input]. *)
Fixpoint payload_decodes (n : nat) (input : bytes) : bool :=
  match n with
  | O => true
  | S n' =>
      match Coding.GetLengthPrefixedSlice input with
      | Some (_, input') => payload_decodes n' input'
      | None => false
      end
  end.

(** The decode failure at the head of [input], as the spec lists them: an
    unassigned tag byte, or an assigned tag whose payload (two strings for
    Value and Merge, one for Deletion and LogData) is truncated or
    malformed. *)
Definition decode_failure (input : bytes) : option string :=
  match input with
  | [] => None
  | tag :: payload =>
      let t := byte_to_Z tag in
      if t =? kTypeValue then
        if payload_decodes 2 payload then None else Some "bad WriteBatch Put"%string
      else if t =? kTypeDeletion then
        if payload_decodes 1 payload then None else Some "bad WriteBatch Delete"%string
      else if t =? kTypeMerge then
        if payload_decodes 2 payload then None else Some "bad WriteBatch Merge"%string
      else if t =? kTypeLogData then
        if payload_decodes 1 payload then None else Some "bad WriteBatch Blob"%string
      else Some "unknown WriteBatch tag"%string
  end.

(** [reaches h input found s input' found' s']: from the loop head with
    [input], [found] and handler state [s], some turns of the loop, each
    with [Continue()] true and a record delivered, lead to the loop head
    with [input'], [found'] and [s']. *)
Inductive reaches {S : Type} (h : Handler.t S)
  : bytes -> Z -> S -> bytes -> Z -> S -> Prop :=
| reaches_here (input : bytes) (found : Z) (s : S) :
    reaches h input found s input found s
| reaches_turn (tag : byte) (input : bytes) (found : Z) (s s1 : S)
    (input1 : bytes) (found1 : Z) (s2 : S)
    (input' : bytes) (found' : Z) (s' : S) :
    Handler.Continue h s = (true, s1) ->
    WriteBatch.Iterate_body h tag input found s1 = Next input1 found1 s2 ->
    reaches h input1 found1 s2 input' found' s' ->
    reaches h (tag :: input) found s input' found' s'.

(** The example batch cut between the tag of its second record and the
    key of that record. *)
Definition truncated_example : WriteBatch :=
  {| rep_ := firstn 18 (rep_ (WriteBatch.apply_ops example_ops WriteBatch.new)) |}.

(** A recording handler that asks to stop once it has received [n]
    records. *)
Definition stop_after (n : nat) : Handler.t (list Op) :=
  {| Handler.Put := Handler.Put WriteBatch.recorder;
     Handler.Delete := Handler.Delete WriteBatch.recorder;
     Handler.Merge := Handler.Merge WriteBatch.recorder;
     Handler.LogData := Handler.LogData WriteBatch.recorder;
     Handler.Continue := fun s => ((length s <? n)%nat, s) |}.

(** A batch with base sequence 100 and three deletes. *)
Definition three_deletes : WriteBatch :=
  WriteBatch.apply_ops
    [OpDelete ["a"%byte]; OpDelete ["b"%byte]; OpDelete ["c"%byte]]
    (WriteBatchInternal.SetSequence WriteBatch.new 100).

(** A merge function that always fails. *)
Definition failing_merge (key : bytes) (existing : option bytes)
    (operands : list bytes) : option bytes := None.

(** The applier state at sequence 7 over a table that holds one pending
    merge operand for the key "k". *)
Definition one_pending : MemTableInserter.t ListTable.collaborators :=
  MemTableInserter.Build_t ListTable.collaborators
    7 [(6, TypeMerge, ["k"%byte], ["x"%byte])] [].

(** A handler together with the log of the calls of its record methods. *)
Definition log_call {S : Type} (h : Handler.t S) (op : Op) (st : S * list Op)
  : outcome (S * list Op) :=
  match deliver h op (fst st) with
  | Normal s' => Normal (s', snd st ++ [op])
  | Thrown what s' => Thrown what (s', snd st ++ [op])
  | Fatal what => Fatal what
  end.

Definition traced {S : Type} (h : Handler.t S) : Handler.t (S * list Op) :=
  {| Handler.Put := fun key value => log_call h (OpPut key value);
     Handler.Delete := fun key => log_call h (OpDelete key);
     Handler.Merge := fun key value => log_call h (OpMerge key value);
     Handler.LogData := fun blob => log_call h (OpLogData blob);
     Handler.Continue := fun st =>
       let (c, s') := Handler.Continue h (fst st) in (c, (s', snd st)) |}.

(** The status and the logged calls of a dispatch that returned. *)
Definition status_and_calls {S : Type} (r : result (S * list Op))
  : option (Status * list Op) :=
  match r with
  | Returned st (_, calls) => Some (st, calls)
  | _ => None
  end.

(** A handler whose record methods always return. *)
Definition always_returns {S : Type} (h : Handler.t S) : Prop :=
  forall op s, exists s', deliver h op s = Normal s'.

(** The two methods a handler has to provide, recording their calls. *)
Definition record_put (key value : bytes) (s : list Op) : outcome (list Op) :=
  Normal (s ++ [OpPut key value]).
Definition record_delete (key : bytes) (s : list Op) : outcome (list Op) :=
  Normal (s ++ [OpDelete key]).

(** ** Further code: decoding, default options, callers, the TTL layer *)

(** The record the [switch] of [Iterate] decodes behind a tag byte, with
    the input left after it; [None] when the [switch] returns a
    corruption. *)
Definition decode_record (tag : byte) (input : bytes) : option (Op * bytes) :=
  let t := byte_to_Z tag in
  if t =? kTypeValue then
    match Coding.GetLengthPrefixedSlice input with
    | Some (key, input) =>
        match Coding.GetLengthPrefixedSlice input with
        | Some (value, input) => Some (OpPut key value, input)
        | None => None
        end
    | None => None
    end
  else if t =? kTypeDeletion then
    match Coding.GetLengthPrefixedSlice input with
    | Some (key, input) => Some (OpDelete key, input)
    | None => None
    end
  else if t =? kTypeMerge then
    match Coding.GetLengthPrefixedSlice input with
    | Some (key, input) =>
        match Coding.GetLengthPrefixedSlice input with
        | Some (value, input) => Some (OpMerge key value, input)
        | None => None
        end
    | None => None
    end
  else if t =? kTypeLogData then
    match Coding.GetLengthPrefixedSlice input with
    | Some (blob, input) => Some (OpLogData blob, input)
    | None => None
    end
  else None.

(** [l1] is an initial part of [l2]. *)
Definition is_prefix {A : Type} (l1 l2 : list A) : Prop :=
  exists rest, l2 = l1 ++ rest.

(** The calls logged by a traced handler when the dispatch ended with the
    handler alive. *)
Definition logged_calls {S : Type} (r : result (S * list Op)) : list Op :=
  match r with
  | Returned _ (_, calls) => calls
  | Raised _ (_, calls) => calls
  | Aborted _ => []
  end.

(** [Options::Options()] of util/options.cc, for the fields the applier
    reads: [merge_operator(nullptr)], [inplace_update_support(false)],
    [inplace_callback(nullptr)], [max_successive_merges(0)]. *)
Definition default_Options : Options :=
  {| inplace_update_support := false; inplace_callback := None;
     max_successive_merges := 0; merge_operator := None |}.

(** The table after the records [ops] were added one by one from sequence
    [seq] on: a Value, Deletion or Merge entry for a point mutation, at
    the next sequence each; nothing for a blob. *)
Fixpoint add_all (C : Collaborators) (ops : list Op) (seq : Z) (mem : MemTable C)
  : Z * MemTable C :=
  match ops with
  | [] => (seq, mem)
  | OpPut key value :: ops' =>
      add_all C ops' (wrap64 (seq + 1)) (Add C seq TypeValue key value mem)
  | OpDelete key :: ops' =>
      add_all C ops' (wrap64 (seq + 1)) (Add C seq TypeDeletion key [] mem)
  | OpMerge key value :: ops' =>
      add_all C ops' (wrap64 (seq + 1)) (Add C seq TypeMerge key value mem)
  | OpLogData _ :: ops' => add_all C ops' seq mem
  end.

(** tools/db_stress.cc: the batches [MultiPut] and [MultiDelete] build
    before they hand them to [db_->Write]. *)
Module StressTest.

Definition MultiPut_prefixes : list byte :=
  ["9"; "8"; "7"; "6"; "5"; "4"; "3"; "2"; "1"; "0"]%byte.

Definition MultiDelete_prefixes : list byte :=
  ["9"; "7"; "5"; "3"; "1"; "8"; "6"; "4"; "2"; "0"]%byte.

(** The loop of [MultiPut]: [keys[i] += key], [values[i] += value], then
    [batch.Merge] or [batch.Put] as [FLAGS_use_merge] says. *)
Definition MultiPut_batch (use_merge : bool) (key value : bytes) : WriteBatch :=
  fold_left
    (fun batch d =>
       if use_merge then WriteBatch.Merge batch (d :: key) (d :: value)
       else WriteBatch.Put batch (d :: key) (d :: value))
    MultiPut_prefixes WriteBatch.new.

(** The loop of [MultiDelete]. *)
Definition MultiDelete_batch (key : bytes) : WriteBatch :=
  fold_left (fun batch d => WriteBatch.Delete batch (d :: key))
    MultiDelete_prefixes WriteBatch.new.

End StressTest.

(** utilities/ttl/db_ttl.h: values carry a 4-byte timestamp at their end. *)
Module DBWithTTL.

Definition kTSLength : nat := 4.

End DBWithTTL.

Module TtlIterator.

(** [timestamp()]: [DecodeFixed32] of the last [kTSLength] bytes of the
    value under the iterator, returned as an [int32_t]. *)
Definition timestamp (value : bytes) : Z :=
  to_int (Coding.DecodeFixed32 (skipn (length value - DBWithTTL.kTSLength) value)).

End TtlIterator.

Module TtlMergeOperator.

(** A value or operand without its last [ts_len] bytes. *)
Definition without_ts (s : bytes) : bytes :=
  firstn (length s - DBWithTTL.kTSLength) s.

(** The [for] loop over the operands: [None] at the first operand shorter
    than the timestamp, else the operands without their timestamps, in
    order. *)
Fixpoint strip_operands (operands : list bytes) (operands_without_ts : list bytes)
  : option (list bytes) :=
  match operands with
  | [] => Some operands_without_ts
  | operand :: rest =>
      if (length operand <? DBWithTTL.kTSLength)%nat then None
      else strip_operands rest (operands_without_ts ++ [without_ts operand])
  end.

Section Wrapper.

(** The user's merge operator: each method gives the content of
    [*new_value] after a call that returned true. *)
Variable user_FullMerge : bytes -> option bytes -> list bytes -> option bytes.
Variable user_PartialMergeMulti : bytes -> list bytes -> option bytes.

(** [DBWithTTL::GetCurrentTime], defined outside the sources: the time
    when its status is ok. *)
Variable curtime : option Z.

(** The end of both methods: the time-stamp is appended to [*new_value]. *)
Definition augment (new_value : bytes) : option bytes * list string :=
  match curtime with
  | None =>
      (None,
       ["Error: Could not get current time to be attached internally to the new value."%string])
  | Some t => (Some (new_value ++ Coding.EncodeFixed32 t), [])
  end.

(** [FullMerge]: the merged value when it returns true, and the lines the
    wrapper itself logs. *)
Definition FullMerge (key : bytes) (existing_value : option bytes)
    (operands : list bytes) : option bytes * list string :=
  if match existing_value with
     | Some e => (length e <? DBWithTTL.kTSLength)%nat
     | None => false
     end
  then (None, ["Error: Could not remove timestamp from existing value."%string])
  else
    match strip_operands operands [] with
    | None => (None, ["Error: Could not remove timestamp from operand value."%string])
    | Some operands_without_ts =>
        let good :=
          match existing_value with
          | Some e => user_FullMerge key (Some (without_ts e)) operands_without_ts
          | None => user_FullMerge key None operands_without_ts
          end in
        match good with
        | None => (None, [])
        | Some new_value => augment new_value
        end
    end.

Definition PartialMergeMulti (key : bytes) (operand_list : list bytes)
  : option bytes * list string :=
  match strip_operands operand_list [] with
  | None => (None, ["Error: Could not remove timestamp from value."%string])
  | Some operands_without_ts =>
      match user_PartialMergeMulti key operands_without_ts with
      | None => (None, [])
      | Some new_value => augment new_value
      end
  end.

End Wrapper.

End TtlMergeOperator.

Module TtlCompactionFilter.

(** What a call of a filter leaves: its result (true removes the entry),
    [*new_val] and [*value_changed]. *)
Definition filter_result : Type := (bool * bytes * bool)%type.

Section Filter.

(** [DBWithTTL::IsStale], defined outside the sources. *)
Variable IsStale : bytes -> Z -> bool.

Variable ttl_ : Z.

(** [user_comp_filter_], null or a filter that is given the level, the
    key, the old value and the two out-parameters as the caller set
    them. *)
Variable user_comp_filter_ :
  option (Z -> bytes -> bytes -> bytes -> bool -> filter_result).

(** [Filter]; with a user filter the old value has its timestamp
    ([assert(old_val.size() >= kTSLength)]). *)
Definition Filter (level : Z) (key old_val new_val : bytes) (value_changed : bool)
  : filter_result :=
  if IsStale old_val ttl_ then (true, new_val, value_changed)
  else
    match user_comp_filter_ with
    | None => (false, new_val, value_changed)
    | Some user_filter =>
        let old_val_without_ts :=
          firstn (length old_val - DBWithTTL.kTSLength) old_val in
        let '(remove, new_val, value_changed) :=
          user_filter level key old_val_without_ts new_val value_changed in
        if remove then (true, new_val, value_changed)
        else if value_changed then
          (false,
           new_val ++ skipn (length old_val - DBWithTTL.kTSLength) old_val,
           value_changed)
        else (false, new_val, value_changed)
    end.

End Filter.

End TtlCompactionFilter.

(** table/meta_blocks.cc: the notification of the property collectors. *)
Module MetaBlocks.

(** A [TablePropertiesCollector] with its state: [Add] gives [s.ok()] and
    the state after the call. *)
Record TablePropertiesCollector (St : Type) : Type := {
  Add : bytes -> bytes -> St -> bool * St;
  Name : string
}.
Arguments Add {St} _ _ _ _.
Arguments Name {St} _.

(** The line [LogPropertiesCollectionError] logs. *)
Definition LogPropertiesCollectionError (method name : string) : string :=
  ("[Warning] encountered error when calling TablePropertiesCollector::" ++
   method ++ "() with collector name: " ++ name)%string.

(** The loop of [NotifyCollectTableCollectorsOnAdd] over the collectors
    still to call: [all_succeeded], the collectors' states after their
    calls and the lines logged. *)
Fixpoint NotifyOnAdd_loop {St : Type} (key value : bytes)
    (collectors : list (TablePropertiesCollector St * St))
    (all_succeeded : bool) (done : list (TablePropertiesCollector St * St))
    (log : list string)
  : bool * list (TablePropertiesCollector St * St) * list string :=
  match collectors with
  | [] => (all_succeeded, done, log)
  | (collector, st) :: rest =>
      let (ok, st') := Add collector key value st in
      NotifyOnAdd_loop key value rest (all_succeeded && ok)
        (done ++ [(collector, st')])
        (if ok then log
         else log ++ [LogPropertiesCollectionError "Add" (Name collector)])
  end.

Definition NotifyCollectTableCollectorsOnAdd {St : Type} (key value : bytes)
    (collectors : list (TablePropertiesCollector St * St))
  : bool * list (TablePropertiesCollector St * St) * list string :=
  NotifyOnAdd_loop key value collectors true [] [].

End MetaBlocks.

(** Three collectors over a counter: the second fails on every call. *)
Definition counting_collectors
  : list (MetaBlocks.TablePropertiesCollector Z * Z) :=
  [({| MetaBlocks.Add := fun _ _ n => (true, n + 1); MetaBlocks.Name := "first" |}, 0);
   ({| MetaBlocks.Add := fun _ _ n => (false, n + 1); MetaBlocks.Name := "second" |}, 10);
   ({| MetaBlocks.Add := fun _ _ n => (true, n + 1); MetaBlocks.Name := "third" |}, 20)].

(** A user filter that keeps every entry and puts "!" before its value. *)
Definition exclaim_filter (level : Z) (key old_val new_val : bytes)
    (value_changed : bool) : TtlCompactionFilter.filter_result :=
  (false, "!"%byte :: old_val, true).

(** ** A dispatch on the buffer in memory *)








(** Modelled from the spec: a memtable and store whose point reads resolve
    the merge chain of a key.  [MemTable] and [DBImpl::Get] are not among
    the sources.  The spec has a point read "keyed by a snapshot-pinned
    sequence" observe "all earlier-sequenced writes and none from the
    current or later ones", and calls "successive merge chain" the
    "consecutive unresolved Merge records for the same key awaiting
    collapse into a plain value".  The table keeps its entries newest
    first; a read folds the pending operands of the key, oldest first,
    over the value below them through the merge function. *)
Module ChainStore.

Section Store.

Variable FullMerge : bytes -> option bytes -> list bytes -> option bytes.

(** Modelled from the spec: what a read pinned to [snapshot] sees of
    [key], the entries written before it ("all earlier-sequenced writes
    and none from the current or later ones"), newest first. *)
Definition visible (key : bytes) (snapshot : Z) (m : list ListTable.entry)
  : list ListTable.entry :=
  filter (fun e => match e with
                   | (seq, _, k, _) => ListTable.bytes_eqb k key && (seq <? snapshot)
                   end) m.

(** Modelled from the spec: the "consecutive unresolved Merge records"
    at the head of a chain; their operands, newest first. *)
Fixpoint pending (chain : list ListTable.entry) : list bytes :=
  match chain with
  | (_, TypeMerge, _, operand) :: chain' => operand :: pending chain'
  | _ => []
  end.

(** Modelled from the spec: the base value below the pending operands,
    that of a Value entry; none below a Deletion entry or at the end of
    the chain. *)
Fixpoint base (chain : list ListTable.entry) : option bytes :=
  match chain with
  | (_, TypeMerge, _, _) :: chain' => base chain'
  | (_, TypeValue, _, value) :: _ => Some value
  | _ => None
  end.

(** Modelled from the spec: the point read [db_->Get] of this store, which
    collapses the chain into a plain value: the pending operands, oldest
    first, folded over the base value through the merge function. *)
Definition point_read (snapshot : Z) (key : bytes) (m : list ListTable.entry)
  : bool * bytes :=
  let chain := visible key snapshot m in
  match pending chain with
  | [] =>
      match base chain with
      | Some value => (true, value)
      | None => (false, [])
      end
  | operands =>
      match FullMerge key (base chain) (rev operands) with
      | Some value => (true, value)
      | None => (false, [])
      end
  end.

(** Modelled from the spec: the memtable and the store together; [Add]
    puts an entry on top, the count of successive merge entries is the
    number of pending operands of the key. *)
Definition collaborators : Collaborators :=
  {| MemTable := list ListTable.entry;
     Add := fun seq type key value m => (seq, type, key, value) :: m;
     Update := fun seq key value m => (seq, TypeValue, key, value) :: m;
     UpdateCallback := fun seq key value m => (false, m);
     CountSuccessiveMergeEntries :=
       fun key seq m => Z.of_nat (length (pending (visible key seq m)));
     Get := point_read;
     KeyMayExist :=
       fun seq key m => match visible key seq m with [] => false | _ => true end |}.

End Store.

End ChainStore.


(** ** Bytes and machine integers *)

Lemma byte_to_Z_range (b : byte) : 0 <= byte_to_Z b < 256.
Proof.
  unfold byte_to_Z. pose proof (Byte.to_N_bounded b). lia.
Qed.

Lemma byte_to_Z_to_byte (z : Z) : byte_to_Z (Z_to_byte z) = z mod 256.
Proof.
  unfold byte_to_Z, Z_to_byte.
  assert (Hr : 0 <= z mod 256 < 256) by (apply Z.mod_pos_bound; lia).
  destruct (Byte.of_N (Z.to_N (z mod 256))) as [b|] eqn:E.
  - apply Byte.to_of_N in E. rewrite E. lia.
  - apply Byte.of_N_None_iff in E. lia.
Qed.

Lemma Z_to_byte_to_Z (b : byte) : Z_to_byte (byte_to_Z b) = b.
Proof.
  unfold Z_to_byte, byte_to_Z.
  pose proof (Byte.to_N_bounded b) as Hb.
  rewrite Z.mod_small by lia. rewrite N2Z.id, Byte.of_to_N. reflexivity.
Qed.

Lemma to_int_range (u : Z) :
  0 <= u < 2 ^ 32 -> - 2 ^ 31 <= to_int u < 2 ^ 31.
Proof.
  unfold to_int. intros H. destruct (Z.ltb_spec u (2 ^ 31)); lia.
Qed.

Lemma wrap32_range (z : Z) : 0 <= wrap32 z < 2 ^ 32.
Proof. unfold wrap32. apply Z.mod_pos_bound. lia. Qed.

Lemma wrap32_small (z : Z) : 0 <= z < 2 ^ 32 -> wrap32 z = z.
Proof. unfold wrap32. intros H. apply Z.mod_small. exact H. Qed.

Lemma wrap32_idem (z : Z) : wrap32 (wrap32 z) = wrap32 z.
Proof. unfold wrap32. apply Z.mod_mod. lia. Qed.

Lemma wrap32_to_int (u : Z) : wrap32 (to_int u) = wrap32 u.
Proof.
  unfold to_int, wrap32. destruct (u <? 2 ^ 31); [reflexivity|].
  replace (u - 2 ^ 32) with (u + (-1) * 2 ^ 32) by lia.
  apply Z.mod_add. lia.
Qed.

Lemma to_int_small (z : Z) : - 2 ^ 31 <= z < 2 ^ 31 -> to_int (wrap32 z) = z.
Proof.
  intros H. unfold to_int, wrap32.
  destruct (Z.leb_spec 0 z).
  - rewrite Z.mod_small by lia. destruct (Z.ltb_spec z (2 ^ 31)); lia.
  - replace (z mod 2 ^ 32) with (z + 2 ^ 32).
    + destruct (Z.ltb_spec (z + 2 ^ 32) (2 ^ 31)); lia.
    + symmetry. replace z with ((z + 2 ^ 32) + (-1) * 2 ^ 32) at 1 by lia.
      rewrite Z.mod_add by lia. apply Z.mod_small. lia.
Qed.

Lemma int_add_assoc (a b c : Z) :
  int_add (int_add a b) c = int_add a (b + c).
Proof.
  unfold int_add. f_equal. unfold wrap32 at 1 3.
  rewrite Z.add_mod by lia.
  fold (wrap32 (to_int (wrap32 (a + b)))). rewrite wrap32_to_int.
  unfold wrap32. rewrite Z.mod_mod by lia.
  rewrite <- Z.add_mod by lia. f_equal. lia.
Qed.

Lemma int_add_0_r (a : Z) : - 2 ^ 31 <= a < 2 ^ 31 -> int_add a 0 = a.
Proof.
  intros H. unfold int_add. rewrite Z.add_0_r. apply to_int_small. exact H.
Qed.

(** ** The codec *)

Lemma DecodeFixed_app (n : nat) : forall (p rest : bytes),
  length p = n -> Coding.DecodeFixed n (p ++ rest) = Coding.DecodeFixed n p.
Proof.
  induction n as [|n IH]; intros p rest Hp; [reflexivity|].
  destruct p as [|b p]; [discriminate|]. simpl in *.
  rewrite IH by lia. reflexivity.
Qed.

Lemma EncodeFixed_length (n : nat) : forall v, length (Coding.EncodeFixed n v) = n.
Proof. induction n as [|n IH]; intros v; simpl; [|rewrite IH]; reflexivity. Qed.

Lemma DecodeFixed_EncodeFixed (n : nat) : forall v,
  Coding.DecodeFixed n (Coding.EncodeFixed n v) = v mod 2 ^ (8 * Z.of_nat n).
Proof.
  induction n as [|n IH]; intros v.
  - simpl. rewrite Z.mod_1_r. reflexivity.
  - cbn [Coding.EncodeFixed Coding.DecodeFixed hd tl].
    rewrite IH, byte_to_Z_to_byte.
    apply Z.bits_inj'. intros i Hi.
    rewrite Z.lor_spec, Z.shiftl_spec by lia.
    change 256 with (2 ^ 8).
    rewrite !Z.testbit_mod_pow2 by lia.
    destruct (Z.ltb_spec i 8).
    + rewrite (Z.testbit_neg_r _ (i - 8)) by lia.
      destruct (Z.ltb_spec i (8 * Z.of_nat (S n))); [|lia].
      rewrite andb_false_r, orb_false_r. reflexivity.
    + rewrite Z.shiftr_spec by lia.
      replace (i - 8 + 8) with i by lia.
      destruct (Z.ltb_spec (i - 8) (8 * Z.of_nat n));
        destruct (Z.ltb_spec i (8 * Z.of_nat (S n))); try lia; reflexivity.
Qed.

Lemma DecodeFixed32_EncodeFixed32 (v : Z) (rest : bytes) :
  Coding.DecodeFixed32 (Coding.EncodeFixed32 v ++ rest) = wrap32 v.
Proof.
  unfold Coding.DecodeFixed32, Coding.EncodeFixed32.
  rewrite DecodeFixed_app by apply EncodeFixed_length.
  rewrite DecodeFixed_EncodeFixed. change (8 * Z.of_nat 4) with 32.
  unfold wrap32. apply Z.mod_mod. lia.
Qed.

Lemma varint_step (result v shift : Z) :
  0 <= shift ->
  Z.lor (Z.lor result (wrap32 (Z.shiftl (Z.land v 127) shift)))
        (wrap32 (Z.shiftl (Z.shiftr v 7) (shift + 7)))
  = Z.lor result (wrap32 (Z.shiftl v shift)).
Proof.
  intros Hs. apply Z.bits_inj'. intros i Hi.
  unfold wrap32. rewrite !Z.lor_spec, !Z.testbit_mod_pow2 by lia.
  rewrite !Z.shiftl_spec by lia. rewrite Z.land_spec.
  change 127 with (Z.ones 7).
  destruct (Z.ltb_spec (i - shift) 0) as [Hneg|Hpos].
  - rewrite !(Z.testbit_neg_r _ (i - shift)) by lia.
    rewrite (Z.testbit_neg_r _ (i - (shift + 7))) by lia.
    rewrite !andb_false_r, !orb_false_r. reflexivity.
  - rewrite Z.testbit_ones_nonneg by lia.
    destruct (Z.ltb_spec (i - shift) 7).
    + rewrite (Z.testbit_neg_r _ (i - (shift + 7))) by lia.
      rewrite andb_true_r, andb_false_r, orb_false_r. reflexivity.
    + rewrite Z.shiftr_spec by lia.
      replace (i - (shift + 7) + 7) with (i - shift) by lia.
      rewrite !andb_false_r, orb_false_r. reflexivity.
Qed.

Lemma varint_last_byte (v : Z) :
  0 <= v < 128 ->
  byte_to_Z (Z_to_byte v) = v /\ Z.testbit v 7 = false.
Proof.
  intros H. split.
  - rewrite byte_to_Z_to_byte. apply Z.mod_small. lia.
  - destruct (Z.eq_dec v 0) as [->|Hv]; [reflexivity|].
    apply Z.bits_above_log2; [lia|].
    apply Z.log2_lt_pow2; lia.
Qed.

Lemma varint_more_byte (v : Z) :
  0 <= v ->
  Z.testbit (byte_to_Z (Z_to_byte (Z.lor v 128))) 7 = true /\
  Z.land (byte_to_Z (Z_to_byte (Z.lor v 128))) 127 = Z.land v 127.
Proof.
  intros H. rewrite byte_to_Z_to_byte. change 256 with (2 ^ 8). split.
  - rewrite Z.testbit_mod_pow2 by lia. rewrite Z.lor_spec.
    change 128 with (2 ^ 7). rewrite Z.pow2_bits_true by lia.
    rewrite orb_true_r. reflexivity.
  - apply Z.bits_inj'. intros i Hi.
    rewrite !Z.land_spec, Z.testbit_mod_pow2, Z.lor_spec by lia.
    change 127 with (Z.ones 7). rewrite Z.testbit_ones_nonneg by lia.
    change 128 with (2 ^ 7). rewrite Z.pow2_bits_eqb by lia.
    destruct (Z.ltb_spec i 7).
    + destruct (Z.eqb_spec 7 i); [lia|].
      destruct (Z.ltb_spec i 8); [|lia].
      rewrite orb_false_r, !andb_true_r. reflexivity.
    + rewrite !andb_false_r. reflexivity.
Qed.

Lemma GetVarint32_from_Encode (n : nat) : forall v shift result rest,
  0 <= v < 2 ^ (7 * (Z.of_nat n + 1)) -> 0 <= shift ->
  Coding.GetVarint32_from (S n) shift result
    (Coding.EncodeVarint32_from n v ++ rest)
  = Some (Z.lor result (wrap32 (Z.shiftl v shift)), rest).
Proof.
  induction n as [|n IH]; intros v shift result rest Hv Hs.
  - change (2 ^ (7 * (Z.of_nat 0 + 1))) with 128 in Hv.
    destruct (varint_last_byte v Hv) as [E1 E2].
    cbn [Coding.EncodeVarint32_from Coding.GetVarint32_from app].
    rewrite E1, E2. reflexivity.
  - cbn [Coding.EncodeVarint32_from].
    destruct (Z.ltb_spec v 128) as [Hlt|Hge].
    + destruct (varint_last_byte v (conj (proj1 Hv) Hlt)) as [E1 E2].
      cbn [Coding.GetVarint32_from app]. rewrite E1, E2. reflexivity.
    + destruct (varint_more_byte v (proj1 Hv)) as [E1 E2].
      change ((?a :: ?l) ++ rest) with (a :: (l ++ rest)).
      remember (S n) as m. cbn [Coding.GetVarint32_from]. subst m.
      rewrite E1, E2. rewrite IH; [| |lia].
      * rewrite varint_step by lia. reflexivity.
      * split; [apply Z.shiftr_nonneg; lia|].
        rewrite Z.shiftr_div_pow2 by lia.
        apply Z.div_lt_upper_bound; [lia|].
        rewrite <- Z.pow_add_r by lia.
        replace (7 + 7 * (Z.of_nat n + 1)) with (7 * (Z.of_nat (S n) + 1)) by lia.
        lia.
Qed.

Lemma GetVarint32_Encode (v : Z) (rest : bytes) :
  0 <= v < 2 ^ 32 ->
  Coding.GetVarint32 (Coding.EncodeVarint32 v ++ rest) = Some (v, rest).
Proof.
  intros Hv. unfold Coding.GetVarint32, Coding.EncodeVarint32.
  rewrite GetVarint32_from_Encode.
  - rewrite Z.shiftl_0_r, Z.lor_0_l, wrap32_small by lia. reflexivity.
  - change (2 ^ (7 * (Z.of_nat 4 + 1))) with (2 ^ 35). lia.
  - lia.
Qed.

Lemma PutLengthPrefixedSlice_lps (dst value : bytes) :
  Coding.PutLengthPrefixedSlice dst value = dst ++ lps value.
Proof.
  unfold Coding.PutLengthPrefixedSlice, Coding.PutVarint32, lps.
  rewrite <- app_assoc. reflexivity.
Qed.

Lemma GetLengthPrefixedSlice_lps (s rest : bytes) :
  small s ->
  Coding.GetLengthPrefixedSlice (lps s ++ rest) = Some (s, rest).
Proof.
  unfold small. intros Hs. unfold Coding.GetLengthPrefixedSlice, lps.
  rewrite <- app_assoc.
  rewrite GetVarint32_Encode by apply wrap32_range.
  rewrite wrap32_small by lia.
  rewrite length_app.
  destruct (Z.geb_spec (Z.of_nat (length s + length rest)) (Z.of_nat (length s)));
    [|lia].
  rewrite Nat2Z.id.
  rewrite firstn_app, skipn_app, Nat.sub_diag, firstn_all, skipn_all.
  simpl. rewrite app_nil_r. reflexivity.
Qed.

(** ** The header fields *)

Lemma firstn8_length (r : bytes) : (8 <= length r)%nat -> length (firstn 8 r) = 8%nat.
Proof. intros H. rewrite length_firstn. lia. Qed.

Lemma EncodeFixed32_length (n : Z) : length (Coding.EncodeFixed32 n) = 4%nat.
Proof. apply EncodeFixed_length. Qed.

Lemma SetCount_length (b : WriteBatch) (n : Z) :
  (kHeader <= length (rep_ b))%nat ->
  length (rep_ (WriteBatchInternal.SetCount b n)) = length (rep_ b).
Proof.
  unfold kHeader. intros H. cbn [WriteBatchInternal.SetCount rep_].
  rewrite !length_app, EncodeFixed32_length, length_skipn, firstn8_length; lia.
Qed.

Lemma SetCount_firstn8 (b : WriteBatch) (n : Z) :
  (8 <= length (rep_ b))%nat ->
  firstn 8 (rep_ (WriteBatchInternal.SetCount b n)) = firstn 8 (rep_ b).
Proof.
  intros H. cbn [WriteBatchInternal.SetCount rep_].
  rewrite firstn_app, firstn8_length by exact H.
  rewrite firstn_firstn. simpl. apply app_nil_r.
Qed.

Lemma SetCount_skipn8 (b : WriteBatch) (n : Z) :
  (8 <= length (rep_ b))%nat ->
  skipn 8 (rep_ (WriteBatchInternal.SetCount b n))
  = Coding.EncodeFixed32 n ++ skipn 12 (rep_ b).
Proof.
  intros H. cbn [WriteBatchInternal.SetCount rep_].
  rewrite skipn_app, firstn8_length by exact H.
  rewrite skipn_all2 by (rewrite firstn8_length; lia). reflexivity.
Qed.

Lemma SetCount_skipn12 (b : WriteBatch) (n : Z) :
  (8 <= length (rep_ b))%nat ->
  skipn kHeader (rep_ (WriteBatchInternal.SetCount b n)) = skipn kHeader (rep_ b).
Proof.
  intros H. unfold kHeader.
  change 12%nat with (4 + 8)%nat at 1. rewrite <- skipn_skipn.
  rewrite SetCount_skipn8 by exact H.
  rewrite skipn_app, EncodeFixed32_length.
  rewrite skipn_all2 by (rewrite EncodeFixed32_length; lia). reflexivity.
Qed.

Lemma Count_SetCount (b : WriteBatch) (n : Z) :
  (8 <= length (rep_ b))%nat ->
  WriteBatchInternal.Count (WriteBatchInternal.SetCount b n) = to_int (wrap32 n).
Proof.
  intros H. unfold WriteBatchInternal.Count.
  rewrite SetCount_skipn8 by exact H.
  rewrite DecodeFixed32_EncodeFixed32. reflexivity.
Qed.

Lemma DecodeFixed_firstn (n : nat) : forall p,
  Coding.DecodeFixed n (firstn n p) = Coding.DecodeFixed n p.
Proof.
  induction n as [|n IH]; intros p; [reflexivity|].
  destruct p as [|b p]; cbn [firstn Coding.DecodeFixed hd tl].
  - rewrite <- (IH []). destruct n; reflexivity.
  - rewrite IH. reflexivity.
Qed.

Lemma Sequence_firstn8 (b1 b2 : WriteBatch) :
  firstn 8 (rep_ b1) = firstn 8 (rep_ b2) ->
  WriteBatchInternal.Sequence b1 = WriteBatchInternal.Sequence b2.
Proof.
  intros H. unfold WriteBatchInternal.Sequence, Coding.DecodeFixed64.
  rewrite <- (DecodeFixed_firstn 8 (rep_ b1)), H. apply DecodeFixed_firstn.
Qed.

Lemma Count_range (b : WriteBatch) :
  - 2 ^ 31 <= WriteBatchInternal.Count b < 2 ^ 31.
Proof.
  unfold WriteBatchInternal.Count, Coding.DecodeFixed32.
  rewrite <- DecodeFixed_firstn.
  set (p := firstn 4 (skipn 8 (rep_ b))).
  apply to_int_range.
  assert (G : forall n q, 0 <= Coding.DecodeFixed n q < 2 ^ (8 * Z.of_nat n)).
  { clear. induction n as [|n IH]; intros q; [simpl; lia|].
    cbn [Coding.DecodeFixed].
    pose proof (byte_to_Z_range (hd x00 q)) as Hb.
    pose proof (IH (tl q)) as Hd.
    assert (Hl : Z.land (byte_to_Z (hd x00 q))
                        (Z.shiftl (Coding.DecodeFixed n (tl q)) 8) = 0).
    { apply Z.bits_inj'. intros i Hi. rewrite Z.land_spec, Z.bits_0.
      destruct (Z.ltb_spec i 8).
      - rewrite Z.shiftl_spec_low by lia. apply andb_false_r.
      - replace (Z.testbit (byte_to_Z (hd x00 q)) i) with false; [reflexivity|].
        symmetry. destruct (Z.eq_dec (byte_to_Z (hd x00 q)) 0) as [->|Hz].
        + apply Z.bits_0.
        + apply Z.bits_above_log2; [lia|].
          apply Z.lt_le_trans with 8; [|lia].
          apply Z.log2_lt_pow2; [lia|]. change (2 ^ 8) with 256. lia. }
    pose proof (Z.add_lor_land (byte_to_Z (hd x00 q))
                  (Z.shiftl (Coding.DecodeFixed n (tl q)) 8)) as Ha.
    rewrite Hl, Z.add_0_r in Ha. rewrite Ha.
    rewrite Z.shiftl_mul_pow2 by lia.
    replace (8 * Z.of_nat (S n)) with (8 * Z.of_nat n + 8) by lia.
    rewrite Z.pow_add_r by lia. change (2 ^ 8) with 256. nia. }
  apply (G 4%nat p).
Qed.

(** ** The mutation calls *)

Lemma apply_op_rep (b : WriteBatch) (op : Op) :
  rep_ (WriteBatch.apply_op b op)
  = rep_ (if is_mutation op
          then WriteBatchInternal.SetCount b (int_add (WriteBatchInternal.Count b) 1)
          else b)
    ++ encode_op op.
Proof.
  destruct op; cbn [WriteBatch.apply_op is_mutation encode_op];
    unfold WriteBatch.Put, WriteBatch.Delete, WriteBatch.Merge,
      WriteBatch.PutLogData, WriteBatch.push_back; cbn [rep_];
    rewrite !PutLengthPrefixedSlice_lps, <- ?app_assoc; reflexivity.
Qed.

Lemma mutations_cons (op : Op) (ops : list Op) :
  WriteBatch.mutations (op :: ops)
  = (if is_mutation op then 1 else 0) + WriteBatch.mutations ops.
Proof. destruct op; reflexivity. Qed.

Lemma mutations_nonneg (ops : list Op) : 0 <= WriteBatch.mutations ops.
Proof.
  induction ops as [|op ops IH]; [simpl; lia|].
  rewrite mutations_cons. destruct (is_mutation op); lia.
Qed.

Lemma mutations_app (ops1 ops2 : list Op) :
  WriteBatch.mutations (ops1 ++ ops2)
  = WriteBatch.mutations ops1 + WriteBatch.mutations ops2.
Proof.
  induction ops1 as [|op ops1 IH]; [reflexivity|].
  rewrite <- app_comm_cons, !mutations_cons, IH. lia.
Qed.

Lemma Count_ext (b1 b2 : WriteBatch) :
  rep_ b1 = rep_ b2 -> WriteBatchInternal.Count b1 = WriteBatchInternal.Count b2.
Proof. unfold WriteBatchInternal.Count. intros ->. reflexivity. Qed.

Lemma Count_app (b : WriteBatch) (r : bytes) :
  (kHeader <= length (rep_ b))%nat ->
  WriteBatchInternal.Count {| rep_ := rep_ b ++ r |} = WriteBatchInternal.Count b.
Proof.
  unfold kHeader. intros Hb.
  unfold WriteBatchInternal.Count, Coding.DecodeFixed32. cbn [rep_].
  rewrite skipn_app.
  replace (8 - length (rep_ b))%nat with 0%nat by lia.
  rewrite skipn_O. rewrite <- (DecodeFixed_firstn 4 (_ ++ _)).
  rewrite firstn_app, length_skipn.
  replace (4 - (length (rep_ b) - 8))%nat with 0%nat by lia.
  rewrite firstn_O, app_nil_r. f_equal. apply DecodeFixed_firstn.
Qed.

(** One mutation call on a batch with a header. *)
Lemma apply_op_spec (b : WriteBatch) (op : Op) :
  (kHeader <= length (rep_ b))%nat ->
  firstn 8 (rep_ (WriteBatch.apply_op b op)) = firstn 8 (rep_ b) /\
  WriteBatchInternal.Count (WriteBatch.apply_op b op)
    = int_add (WriteBatchInternal.Count b) (if is_mutation op then 1 else 0) /\
  skipn kHeader (rep_ (WriteBatch.apply_op b op))
    = skipn kHeader (rep_ b) ++ encode_op op /\
  (kHeader <= length (rep_ (WriteBatch.apply_op b op)))%nat.
Proof.
  unfold kHeader. intros Hb.
  pose proof (apply_op_rep b op) as E.
  destruct (is_mutation op).
  - set (b1 := WriteBatchInternal.SetCount b _) in E.
    assert (H1 : (12 <= length (rep_ b1))%nat)
      by (unfold b1; rewrite SetCount_length; unfold kHeader; lia).
    repeat split.
    + rewrite E, firstn_app.
      replace (8 - length (rep_ b1))%nat with 0%nat by lia.
      rewrite firstn_O, app_nil_r. apply SetCount_firstn8. lia.
    + rewrite (Count_ext _ {| rep_ := rep_ b1 ++ encode_op op |} E).
      rewrite Count_app by exact H1. unfold b1. rewrite Count_SetCount by lia.
      unfold int_add. rewrite wrap32_to_int, wrap32_idem. reflexivity.
    + rewrite E, skipn_app.
      replace (12 - length (rep_ b1))%nat with 0%nat by lia.
      rewrite skipn_O. f_equal. apply (SetCount_skipn12 b). lia.
    + rewrite E, length_app. lia.
  - repeat split.
    + rewrite E, firstn_app.
      replace (8 - length (rep_ b))%nat with 0%nat by lia.
      rewrite firstn_O. apply app_nil_r.
    + rewrite (Count_ext _ {| rep_ := rep_ b ++ encode_op op |} E).
      rewrite Count_app by exact Hb. symmetry. apply int_add_0_r, Count_range.
    + rewrite E, skipn_app.
      replace (12 - length (rep_ b))%nat with 0%nat by lia.
      reflexivity.
    + rewrite E, length_app. lia.
Qed.

(** What a sequence of mutation calls does to a batch with a header: the
    sequence field stays, the count field counts the mutations (in [int]
    arithmetic) and the records are appended in order. *)
Lemma apply_ops_rep (ops : list Op) : forall (b : WriteBatch),
  (kHeader <= length (rep_ b))%nat ->
  firstn 8 (rep_ (WriteBatch.apply_ops ops b)) = firstn 8 (rep_ b) /\
  WriteBatchInternal.Count (WriteBatch.apply_ops ops b)
    = int_add (WriteBatchInternal.Count b) (WriteBatch.mutations ops) /\
  skipn kHeader (rep_ (WriteBatch.apply_ops ops b))
    = skipn kHeader (rep_ b) ++ encode_ops ops /\
  (kHeader <= length (rep_ (WriteBatch.apply_ops ops b)))%nat.
Proof.
  induction ops as [|op ops IH]; intros b Hb.
  - cbn [WriteBatch.apply_ops fold_left WriteBatch.mutations encode_ops flat_map].
    rewrite app_nil_r, int_add_0_r by apply Count_range. auto.
  - change (WriteBatch.apply_ops (op :: ops) b)
      with (WriteBatch.apply_ops ops (WriteBatch.apply_op b op)).
    destruct (apply_op_spec b op Hb) as (Hf & Hc & Hs & Hl).
    destruct (IH _ Hl) as (IHf & IHc & IHs & IHl).
    rewrite IHf, IHc, IHs, Hf, Hc, Hs, int_add_assoc, mutations_cons.
    cbn [encode_ops flat_map]. rewrite <- app_assoc. auto.
Qed.

(** ** The replay loop *)

Lemma GetVarint32_from_length (n : nat) : forall shift result p v p',
  Coding.GetVarint32_from n shift result p = Some (v, p') ->
  (length p' < length p)%nat.
Proof.
  induction n as [|n IH]; intros shift result p v p' H; [discriminate|].
  destruct p as [|b p]; [discriminate|].
  cbn [Coding.GetVarint32_from] in H.
  destruct (Z.testbit (byte_to_Z b) 7).
  - apply IH in H. simpl. lia.
  - injection H as _ <-. simpl. lia.
Qed.

Lemma GetLengthPrefixedSlice_length (input s rest : bytes) :
  Coding.GetLengthPrefixedSlice input = Some (s, rest) ->
  (length rest < length input)%nat.
Proof.
  unfold Coding.GetLengthPrefixedSlice, Coding.GetVarint32.
  destruct (Coding.GetVarint32_from 5 0 0 input) as [[len input']|] eqn:E;
    [|discriminate].
  apply GetVarint32_from_length in E.
  destruct (Z.of_nat (length input') >=? len); [|discriminate].
  intros H. injection H as _ <-. rewrite length_skipn. lia.
Qed.

Lemma after_call_Next {S : Type} (o : outcome S) (input : bytes) (found : Z)
    (input' : bytes) (found' : Z) (s' : S) :
  WriteBatch.after_call o input found = Next input' found' s' ->
  o = Normal s' /\ input' = input /\ found' = found.
Proof.
  destruct o; cbn [WriteBatch.after_call]; intros H; try discriminate.
  injection H as <- <- <-. auto.
Qed.

Lemma Iterate_body_length {S : Type} (h : Handler.t S) (tag : byte)
    (input : bytes) (found : Z) (s : S) (input' : bytes) (found' : Z) (s' : S) :
  WriteBatch.Iterate_body h tag input found s = Next input' found' s' ->
  (length input' < length input)%nat.
Proof.
  unfold WriteBatch.Iterate_body.
  repeat match goal with
  | |- context [if ?c then _ else _] => destruct c
  | |- context [Coding.GetLengthPrefixedSlice ?i] =>
      let E := fresh "E" in
      destruct (Coding.GetLengthPrefixedSlice i) as [[? ?]|] eqn:E;
      [apply GetLengthPrefixedSlice_length in E|]
  end;
  intros H; try discriminate;
  apply after_call_Next in H; destruct H as (_ & -> & _); lia.
Qed.

(** The loop never uses up a fuel above the length of its input, and its
    result does not depend on that fuel. *)
Lemma Iterate_loop_fuel {S : Type} (h : Handler.t S) (count : Z) :
  forall (fuel1 fuel2 : nat) (input : bytes) (found : Z) (s : S),
  (length input < fuel1)%nat -> (length input < fuel2)%nat ->
  WriteBatch.Iterate_loop fuel1 h count input found s
  = WriteBatch.Iterate_loop fuel2 h count input found s /\
  WriteBatch.Iterate_loop fuel1 h count input found s <> None.
Proof.
  induction fuel1 as [|fuel1 IH]; intros fuel2 input found s H1 H2; [lia|].
  destruct fuel2 as [|fuel2]; [lia|].
  cbn [WriteBatch.Iterate_loop].
  destruct input as [|tag input]; [split; [reflexivity|discriminate]|].
  destruct (Handler.Continue h s) as [c s1].
  destruct c; [|split; [reflexivity|discriminate]].
  destruct (WriteBatch.Iterate_body h tag input found s1)
    as [input' found' s'| | |] eqn:E;
    try (split; [reflexivity|discriminate]).
  apply Iterate_body_length in E. simpl in H1, H2.
  apply IH; lia.
Qed.

(** [Iterate] gives the loop enough fuel: the loop returns a result. *)
Lemma Iterate_loop_total {S : Type} (h : Handler.t S) (count : Z)
    (input : bytes) (found : Z) (s : S) :
  exists r,
    WriteBatch.Iterate_loop (Datatypes.S (length input)) h count input found s
    = Some r.
Proof.
  destruct (Iterate_loop_fuel h count (Datatypes.S (length input))
              (Datatypes.S (length input)) input found s) as [_ H]; [lia|lia|].
  destruct (WriteBatch.Iterate_loop _ h count input found s) as [r|];
    [exists r; reflexivity|contradiction].
Qed.

Lemma Iterate_from_nil {S : Type} (h : Handler.t S) (count found : Z) (s : S) :
  Iterate_from h count [] found s = WriteBatch.Iterate_finish count found s.
Proof. reflexivity. Qed.

Lemma Iterate_from_cons {S : Type} (h : Handler.t S) (count : Z) (tag : byte)
    (input : bytes) (found : Z) (s : S) :
  Iterate_from h count (tag :: input) found s
  = let (c, s1) := Handler.Continue h s in
    if c then
      match WriteBatch.Iterate_body h tag input found s1 with
      | Next input' found' s' => Iterate_from h count input' found' s'
      | Return st s' => Returned st s'
      | Throw what s' => Raised what s'
      | Abort what => Aborted what
      end
    else WriteBatch.Iterate_finish count found s1.
Proof.
  unfold Iterate_from at 1.
  change (length (tag :: input)) with (Datatypes.S (length input)).
  remember (Datatypes.S (length input)) as fuel.
  cbn [WriteBatch.Iterate_loop].
  destruct (Handler.Continue h s) as [c s1].
  destruct c; [|reflexivity].
  destruct (WriteBatch.Iterate_body h tag input found s1)
    as [input' found' s'| | |] eqn:E; try reflexivity.
  apply Iterate_body_length in E. unfold Iterate_from.
  destruct (Iterate_loop_fuel h count fuel (Datatypes.S (length input'))
              input' found' s') as [-> _]; [lia|lia|reflexivity].
Qed.

Lemma Iterate_unfold {S : Type} (b : WriteBatch) (h : Handler.t S) (s : S) :
  (kHeader <= length (rep_ b))%nat ->
  WriteBatch.Iterate b h s
  = Iterate_from h (WriteBatchInternal.Count b) (skipn kHeader (rep_ b)) 0 s.
Proof.
  intros H. unfold WriteBatch.Iterate, Iterate_from.
  destruct (Nat.ltb_spec (length (rep_ b)) kHeader); [lia|reflexivity].
Qed.

Lemma Iterate_too_small {S : Type} (b : WriteBatch) (h : Handler.t S) (s : S) :
  (length (rep_ b) < kHeader)%nat ->
  WriteBatch.Iterate b h s
  = Returned (Corruption "malformed WriteBatch (too small)") s.
Proof.
  intros H. unfold WriteBatch.Iterate.
  destruct (Nat.ltb_spec (length (rep_ b)) kHeader); [reflexivity|lia].
Qed.

(** The loop body on the encoding of one call. *)
Lemma Iterate_body_encode_op {S : Type} (h : Handler.t S) (op : Op)
    (tag : byte) (payload rest : bytes) (found : Z) (s : S) :
  small_op op ->
  encode_op op = tag :: payload ->
  WriteBatch.Iterate_body h tag (payload ++ rest) found s
  = WriteBatch.after_call (deliver h op s) rest
      (if is_mutation op then int_add found 1 else found).
Proof.
  intros Hs E. unfold WriteBatch.Iterate_body.
  destruct op as [key value|key|key value|blob]; cbn [encode_op] in E;
    injection E as <- <-; cbn [small_op] in Hs;
    match goal with
    | |- context [byte_to_Z (Z_to_byte ?t)] =>
        let v := eval vm_compute in (byte_to_Z (Z_to_byte t)) in
        change (byte_to_Z (Z_to_byte t)) with v
    end; cbv beta zeta;
    repeat match goal with
    | |- context [?a =? ?b] =>
        let v := eval vm_compute in (a =? b) in change (a =? b) with v
    end; cbv iota;
    rewrite <- ?app_assoc;
    repeat (rewrite GetLengthPrefixedSlice_lps by tauto);
    reflexivity.
Qed.

(** The loop on the encoding of a sequence of calls, for a handler that
    keeps the inherited [Continue]: the calls are delivered in order, up to
    the first that does not return. *)
Lemma Iterate_from_encode_ops {S : Type} (h : Handler.t S) (count : Z)
    (rest : bytes) :
  always_continues h ->
  forall (ops : list Op) (found : Z) (s : S),
  Forall small_op ops ->
  Iterate_from h count (encode_ops ops ++ rest) found s
  = match deliver_all h ops s with
    | Normal s' => Iterate_from h count rest (found_after found ops) s'
    | Thrown what s' => Raised what s'
    | Fatal what => Aborted what
    end.
Proof.
  intros Hc. induction ops as [|op ops IH]; intros found s Hs; [reflexivity|].
  inversion Hs as [|? ? Hop Hops]; subst.
  cbn [encode_ops flat_map deliver_all found_after].
  fold (encode_ops ops). rewrite <- app_assoc.
  assert (Htag : exists tag payload, encode_op op = tag :: payload)
    by (destruct op; cbn [encode_op]; eauto).
  destruct Htag as (tag & payload & E). rewrite E.
  rewrite <- app_comm_cons, Iterate_from_cons, Hc.
  rewrite (Iterate_body_encode_op h op tag payload _ found s Hop E).
  destruct (deliver h op s) as [s'|what s'|what]; cbn [WriteBatch.after_call];
    [apply IH; exact Hops|reflexivity|reflexivity].
Qed.

Lemma found_after_int_add (ops : list Op) : forall found,
  - 2 ^ 31 <= found < 2 ^ 31 ->
  found_after found ops = int_add found (WriteBatch.mutations ops).
Proof.
  induction ops as [|op ops IH]; intros found Hf.
  - simpl. symmetry. apply int_add_0_r. exact Hf.
  - cbn [found_after]. rewrite mutations_cons.
    destruct (is_mutation op).
    + rewrite IH, int_add_assoc; [reflexivity|].
      unfold int_add. apply to_int_range, wrap32_range.
    + rewrite IH by exact Hf. reflexivity.
Qed.

Lemma deliver_all_recorder (ops : list Op) : forall s,
  deliver_all WriteBatch.recorder ops s = Normal (s ++ ops).
Proof.
  induction ops as [|op ops IH]; intros s; cbn [deliver_all].
  - rewrite app_nil_r. reflexivity.
  - destruct op; cbn [deliver WriteBatch.recorder Handler.Put Handler.Delete
                        Handler.Merge Handler.LogData];
      rewrite IH, <- app_assoc; reflexivity.
Qed.

(** ** Round trip (C3) *)

Lemma Clear_rep (b : WriteBatch) :
  (kHeader <= length (rep_ (WriteBatch.Clear b)))%nat /\
  skipn kHeader (rep_ (WriteBatch.Clear b)) = [] /\
  WriteBatchInternal.Count (WriteBatch.Clear b) = 0.
Proof. repeat split. vm_compute. lia. Qed.

Lemma Iterate_recorder_apply_ops (ops : list Op) (b : WriteBatch) :
  Forall small_op ops ->
  WriteBatch.Iterate (WriteBatch.apply_ops ops (WriteBatch.Clear b))
    WriteBatch.recorder [] = Returned OK ops.
Proof.
  intros Hs.
  destruct (Clear_rep b) as (Hl & Hbody & Hcount).
  destruct (apply_ops_rep ops _ Hl) as (_ & Hc & Hr & Hl').
  rewrite Iterate_unfold by exact Hl'.
  rewrite Hr, Hbody, Hc, Hcount. cbn [app].
  rewrite <- (app_nil_r (encode_ops ops)).
  rewrite Iterate_from_encode_ops; [|intros s; reflexivity|exact Hs].
  rewrite deliver_all_recorder, Iterate_from_nil.
  rewrite found_after_int_add by lia.
  unfold WriteBatch.Iterate_finish. rewrite Z.eqb_refl. reflexivity.
Qed.

(** C3, as amended: for every finite sequence of Put/Delete/Merge/PutLogData
    calls on a freshly created or cleared batch whose keys, values and
    blobs are shorter than 2^32 bytes (empty ones included), [Iterate] with
    a recording handler succeeds and reproduces the same calls in the same
    order with the same keys, values and blobs; and [Count()] equals the
    number N of calls other than PutLogData when N < 2^31, whatever the
    number of PutLogData calls. *)
Theorem roundtrip_small (ops : list Op) (b : WriteBatch) :
  Forall small_op ops ->
  WriteBatch.Iterate (WriteBatch.apply_ops ops (WriteBatch.Clear b))
    WriteBatch.recorder [] = Returned OK ops /\
  (WriteBatch.mutations ops < 2 ^ 31 ->
   WriteBatch.Count (WriteBatch.apply_ops ops (WriteBatch.Clear b))
   = WriteBatch.mutations ops).
Proof.
  intros Hs. split; [apply Iterate_recorder_apply_ops; exact Hs|].
  intros Hn.
  destruct (Clear_rep b) as (Hl & _ & Hcount).
  destruct (apply_ops_rep ops _ Hl) as (_ & Hc & _).
  unfold WriteBatch.Count. rewrite Hc, Hcount.
  unfold int_add. rewrite Z.add_0_l. apply to_int_small.
  pose proof (mutations_nonneg ops). lia.
Qed.

Lemma small_op_example : Forall small_op example_ops.
Proof. repeat constructor. Qed.

Lemma roundtrip_small_witness :
  Forall small_op example_ops /\
  WriteBatch.Iterate (WriteBatch.apply_ops example_ops WriteBatch.new)
    WriteBatch.recorder [] = Returned OK example_ops /\
  WriteBatch.Count (WriteBatch.apply_ops example_ops WriteBatch.new) = 3.
Proof.
  split; [exact small_op_example|].
  destruct (roundtrip_small example_ops {| rep_ := [] |} small_op_example)
    as [H1 H2].
  split; [exact H1|]. apply H2. reflexivity.
Defined.

Lemma mutations_repeat_Delete (key : bytes) (n : nat) :
  WriteBatch.mutations (repeat (OpDelete key) n) = Z.of_nat n.
Proof.
  induction n as [|n IH]; [reflexivity|].
  change (repeat (OpDelete key) (S n)) with (OpDelete key :: repeat (OpDelete key) n).
  rewrite mutations_cons, IH. cbn [is_mutation]. lia.
Qed.

Lemma Count_apply_ops_new (ops : list Op) :
  WriteBatch.Count (WriteBatch.apply_ops ops WriteBatch.new)
  = to_int (wrap32 (WriteBatch.mutations ops)).
Proof.
  destruct (Clear_rep {| rep_ := [] |}) as (Hl & _ & Hcount).
  destruct (apply_ops_rep ops _ Hl) as (_ & Hc & _).
  unfold WriteBatch.Count, WriteBatch.new. rewrite Hc, Hcount. reflexivity.
Qed.

(** A key of a multiple of 2^32 bytes is written behind the length prefix
    0, so its bytes are read as records. *)
Lemma Iterate_long_key (m : nat) :
  wrap32 (Z.of_nat (S m)) = 0 ->
  WriteBatch.Iterate
    (WriteBatch.apply_ops [OpDelete (xff :: repeat xff m)] WriteBatch.new)
    WriteBatch.recorder []
  = Returned (Corruption "unknown WriteBatch tag") [OpDelete []].
Proof.
  intros Hm.
  destruct (Clear_rep {| rep_ := [] |}) as (Hl & Hbody & _).
  destruct (apply_ops_rep [OpDelete (xff :: repeat xff m)] _ Hl)
    as (_ & _ & Hr & Hl').
  unfold WriteBatch.new. rewrite Iterate_unfold by exact Hl'.
  rewrite Hr, Hbody. cbn [app encode_ops flat_map encode_op].
  unfold lps. change (length (xff :: repeat xff m)) with (S (length (repeat xff m))).
  rewrite repeat_length, Hm, app_nil_r.
  change (Coding.EncodeVarint32 0) with [x00].
  change (Z_to_byte kTypeDeletion) with x00.
  cbn [app]. rewrite Iterate_from_cons.
  cbn [WriteBatch.recorder Handler.Continue Handler.default_Continue].
  unfold WriteBatch.Iterate_body at 1.
  change (byte_to_Z x00 =? kTypeValue) with false.
  change (byte_to_Z x00 =? kTypeDeletion) with true. cbv iota beta zeta.
  change (Coding.GetLengthPrefixedSlice (x00 :: xff :: repeat xff m))
    with (Some (@nil byte, xff :: repeat xff m)).
  cbn [WriteBatch.after_call Handler.Delete WriteBatch.recorder app].
  rewrite Iterate_from_cons. reflexivity.
Qed.

(** C3, counterexamples: after 2^31 calls of [Delete] the [int] returned by
    [Count()] is not the number of calls; and a [Delete] of a key of 2^32
    bytes is not reproduced by the replay. *)
Lemma roundtrip_unbounded_fails :
  WriteBatch.Count (WriteBatch.apply_ops many_deletes WriteBatch.new)
    <> WriteBatch.mutations many_deletes /\
  WriteBatch.Iterate (WriteBatch.apply_ops [OpDelete long_key] WriteBatch.new)
    WriteBatch.recorder [] <> Returned OK [OpDelete long_key].
Proof.
  split.
  - rewrite Count_apply_ops_new. unfold many_deletes.
    rewrite mutations_repeat_Delete, Z2Nat.id by lia.
    intros H. vm_compute in H. discriminate H.
  - unfold long_key. rewrite Iterate_long_key.
    + intros H. discriminate H.
    + rewrite Nat2Z.inj_succ, Z2Nat.id by lia. reflexivity.
Qed.

(** ** Append (C4) *)

(** C4, as amended: for batches [dst] and [src] with headers of at least 12
    bytes, [Append(dst, src)] sets the count field of [dst] to the sum of
    the two counts computed in [int] arithmetic (the sum itself whenever it
    is an [int]), leaves the 8 bytes of the sequence number as they are and
    puts the bytes of [src] behind its header after the bytes of [dst]. *)
Theorem Append_spec (dst src : WriteBatch) :
  (kHeader <= length (rep_ dst))%nat ->
  (kHeader <= length (rep_ src))%nat ->
  let r := WriteBatchInternal.Append dst src in
  WriteBatchInternal.Count r
    = int_add (WriteBatchInternal.Count dst) (WriteBatchInternal.Count src) /\
  (- 2 ^ 31 <= WriteBatchInternal.Count dst + WriteBatchInternal.Count src < 2 ^ 31 ->
   WriteBatchInternal.Count r
   = WriteBatchInternal.Count dst + WriteBatchInternal.Count src) /\
  skipn kHeader (rep_ r) = skipn kHeader (rep_ dst) ++ skipn kHeader (rep_ src) /\
  length (rep_ r) = (length (rep_ dst) + (length (rep_ src) - kHeader))%nat /\
  firstn 8 (rep_ r) = firstn 8 (rep_ dst) /\
  WriteBatchInternal.Sequence r = WriteBatchInternal.Sequence dst.
Proof.
  intros Hd Hs r. unfold kHeader in *.
  set (n := int_add (WriteBatchInternal.Count dst) (WriteBatchInternal.Count src)).
  set (dst1 := WriteBatchInternal.SetCount dst n).
  assert (Hr : rep_ r = rep_ dst1 ++ skipn 12 (rep_ src)) by reflexivity.
  assert (H1 : (12 <= length (rep_ dst1))%nat)
    by (unfold dst1; rewrite SetCount_length; unfold kHeader; lia).
  assert (Hc : WriteBatchInternal.Count r = n).
  { rewrite (Count_ext r {| rep_ := rep_ dst1 ++ skipn 12 (rep_ src) |} Hr).
    rewrite Count_app by exact H1. unfold dst1. rewrite Count_SetCount by lia.
    unfold n, int_add. rewrite wrap32_to_int, wrap32_idem. reflexivity. }
  assert (Hf : firstn 8 (rep_ r) = firstn 8 (rep_ dst)).
  { rewrite Hr, firstn_app.
    replace (8 - length (rep_ dst1))%nat with 0%nat by lia.
    rewrite firstn_O, app_nil_r. apply SetCount_firstn8. lia. }
  repeat split.
  - exact Hc.
  - intros Hsum. rewrite Hc. unfold n, int_add. apply to_int_small. exact Hsum.
  - rewrite Hr, skipn_app.
    replace (12 - length (rep_ dst1))%nat with 0%nat by lia.
    rewrite skipn_O. f_equal. apply (SetCount_skipn12 dst). lia.
  - rewrite Hr, length_app, length_skipn. unfold dst1.
    rewrite SetCount_length by (unfold kHeader; lia). reflexivity.
  - exact Hf.
  - apply Sequence_firstn8. exact Hf.
Qed.

Lemma Append_spec_witness :
  (kHeader <= length (rep_ batch_7_2))%nat /\
  (kHeader <= length (rep_ batch_9_3))%nat /\
  WriteBatchInternal.Count batch_7_2 = 2 /\
  WriteBatchInternal.Count batch_9_3 = 3 /\
  WriteBatchInternal.Count (WriteBatchInternal.Append batch_7_2 batch_9_3) = 5 /\
  WriteBatchInternal.Sequence (WriteBatchInternal.Append batch_7_2 batch_9_3) = 7.
Proof.
  assert (H2 : (kHeader <= length (rep_ batch_7_2))%nat) by (vm_compute; lia).
  assert (H3 : (kHeader <= length (rep_ batch_9_3))%nat) by (vm_compute; lia).
  destruct (Append_spec batch_7_2 batch_9_3 H2 H3) as (_ & Hc & _ & _ & _ & Hq).
  split; [exact H2|]. split; [exact H3|].
  split; [reflexivity|]. split; [reflexivity|].
  split; [apply Hc; vm_compute; split; [discriminate|reflexivity]|exact Hq].
Defined.

(** C4, counterexample: when both count fields hold 0x80000000 the count
    field after [Append] holds 0, which is not the sum of the two counts. *)
Lemma Append_count_wraps :
  (kHeader <= length (rep_ half_full))%nat /\
  WriteBatchInternal.Count (WriteBatchInternal.Append half_full half_full)
  <> WriteBatchInternal.Count half_full + WriteBatchInternal.Count half_full.
Proof.
  split; [vm_compute; lia|]. vm_compute. discriminate.
Qed.

(** ** Put with fragments (C9) *)

Lemma total_bytes_concat (parts : list bytes) : forall a,
  fold_left (fun acc p => wrap32 (acc + Z.of_nat (length p))) parts (wrap32 a)
  = wrap32 (a + Z.of_nat (length (concat parts))).
Proof.
  induction parts as [|p parts IH]; intros a; cbn [fold_left concat].
  - rewrite Z.add_0_r. reflexivity.
  - replace (wrap32 (wrap32 a + Z.of_nat (length p)))
      with (wrap32 (a + Z.of_nat (length p)))
      by (unfold wrap32; symmetry; apply Zplus_mod_idemp_l).
    rewrite IH, length_app. f_equal. lia.
Qed.

Lemma append_parts_concat (parts : list bytes) : forall d,
  fold_left (fun d p => d ++ p) parts d = d ++ concat parts.
Proof.
  induction parts as [|p parts IH]; intros d; cbn [fold_left concat].
  - rewrite app_nil_r. reflexivity.
  - rewrite IH, app_assoc. reflexivity.
Qed.

Lemma PutLengthPrefixedSliceParts_concat (dst : bytes) (parts : list bytes) :
  Coding.PutLengthPrefixedSliceParts dst parts
  = Coding.PutLengthPrefixedSlice dst (concat parts).
Proof.
  unfold Coding.PutLengthPrefixedSliceParts, Coding.PutLengthPrefixedSlice.
  rewrite append_parts_concat. f_equal.
  change 0 with (wrap32 0) at 1. rewrite total_bytes_concat, Z.add_0_l.
  unfold Coding.PutVarint32. rewrite wrap32_idem. reflexivity.
Qed.

(** C9: [Put(keyParts, valueParts)] leaves the batch with the same bytes,
    count field included, as [Put] of the concatenated key fragments and
    the concatenated value fragments. *)
Theorem PutParts_Put (b : WriteBatch) (keyParts valueParts : list bytes) :
  WriteBatch.PutParts b keyParts valueParts
  = WriteBatch.Put b (concat keyParts) (concat valueParts).
Proof.
  unfold WriteBatch.PutParts, WriteBatch.Put.
  rewrite !PutLengthPrefixedSliceParts_concat. reflexivity.
Qed.

(** ** The inherited handler methods (C10) *)

(** C10: in a handler that overrides only [Put] and [Delete], [LogData]
    does nothing, [Continue] returns true and [Merge] throws; so the replay
    of a batch with a Merge record behind well-formed records does not
    return a status: it is left by an exception, which is the exception of
    [Merge] once the calls before it have returned. *)
Theorem default_Merge_aborts {S : Type}
    (put : bytes -> bytes -> S -> outcome S) (delete : bytes -> S -> outcome S)
    (b : WriteBatch) (hdr : bytes) (pre : list Op) (key value rest : bytes)
    (s : S) :
  rep_ b = hdr ++ encode_ops pre ++ encode_op (OpMerge key value) ++ rest ->
  length hdr = kHeader ->
  Forall small_op pre -> small key -> small value ->
  let h := Handler.with_defaults put delete in
  (forall blob s0, Handler.LogData h blob s0 = Normal s0) /\
  (forall s0, Handler.Continue h s0 = (true, s0)) /\
  (forall k v s0,
     Handler.Merge h k v s0 = Thrown "Handler::Merge not implemented!" s0) /\
  (forall st s', WriteBatch.Iterate b h s <> Returned st s') /\
  (forall s1, deliver_all h pre s = Normal s1 ->
     WriteBatch.Iterate b h s = Raised "Handler::Merge not implemented!" s1).
Proof.
  intros Hrep Hhdr Hpre Hk Hv h.
  assert (Hc : always_continues h) by (intros s0; reflexivity).
  assert (Hrun : WriteBatch.Iterate b h s
                 = match deliver_all h pre s with
                   | Normal s1 => Raised "Handler::Merge not implemented!" s1
                   | Thrown what s1 => Raised what s1
                   | Fatal what => Aborted what
                   end).
  { rewrite Iterate_unfold by (rewrite Hrep, length_app; lia).
    rewrite Hrep, skipn_app, Hhdr, Nat.sub_diag, skipn_O.
    rewrite skipn_all2 by lia. cbn [app].
    rewrite (Iterate_from_encode_ops h _ _ Hc pre 0 s Hpre).
    destruct (deliver_all h pre s) as [s1|what s1|what]; try reflexivity.
    replace (encode_op (OpMerge key value))
      with (encode_ops [OpMerge key value])
      by (cbn [encode_ops flat_map]; apply app_nil_r).
    rewrite (Iterate_from_encode_ops h _ _ Hc [OpMerge key value]);
      [reflexivity|].
    constructor; [split; assumption|constructor]. }
  repeat split.
  - intros st s'. rewrite Hrun.
    destruct (deliver_all h pre s); discriminate.
  - intros s1 E. rewrite Hrun, E. reflexivity.
Qed.

Lemma default_Merge_aborts_witness :
  Forall small_op [OpPut ["a"%byte] ["1"%byte]; OpDelete ["b"%byte]] /\
  small ["c"%byte] /\ small ["+"%byte; "1"%byte] /\
  WriteBatch.Iterate (WriteBatch.apply_ops example_ops WriteBatch.new)
    (Handler.with_defaults record_put record_delete) []
  = Raised "Handler::Merge not implemented!"
      [OpPut ["a"%byte] ["1"%byte]; OpDelete ["b"%byte]].
Proof.
  assert (Hpre : Forall small_op [OpPut ["a"%byte] ["1"%byte]; OpDelete ["b"%byte]])
    by (repeat constructor).
  assert (Hk : small ["c"%byte]) by reflexivity.
  assert (Hv : small ["+"%byte; "1"%byte]) by reflexivity.
  split; [exact Hpre|]. split; [exact Hk|]. split; [exact Hv|].
  refine (proj2 (proj2 (proj2 (proj2
    (default_Merge_aborts record_put record_delete
       (WriteBatch.apply_ops example_ops WriteBatch.new)
       (firstn 12 (rep_ (WriteBatch.apply_ops example_ops WriteBatch.new)))
       [OpPut ["a"%byte] ["1"%byte]; OpDelete ["b"%byte]]
       ["c"%byte] ["+"%byte; "1"%byte]
       (encode_op (OpLogData ["m"%byte; "e"%byte; "t"%byte; "a"%byte]))
       [] _ _ Hpre Hk Hv)))) _ _).
  - vm_compute. reflexivity.
  - vm_compute. reflexivity.
  - reflexivity.
Defined.

(** ** Decode failures (C5) *)

Lemma decode_failure_Return {S : Type} (h : Handler.t S) (tag : byte)
    (input : bytes) (found : Z) (s : S) (msg : string) :
  decode_failure (tag :: input) = Some msg ->
  WriteBatch.Iterate_body h tag input found s = Return (Corruption msg) s.
Proof.
  unfold decode_failure, WriteBatch.Iterate_body. cbn [payload_decodes].
  repeat match goal with
  | |- context [if ?c =? ?d then _ else _] => destruct (c =? d)
  | |- context [Coding.GetLengthPrefixedSlice ?i] =>
      destruct (Coding.GetLengthPrefixedSlice i) as [[? ?]|]
  end;
  intros H; try discriminate; injection H as <-; reflexivity.
Qed.

Lemma decode_failure_None {S : Type} (h : Handler.t S) (tag : byte)
    (input : bytes) (found : Z) (s : S) (st : Status) (s' : S) :
  decode_failure (tag :: input) = None ->
  WriteBatch.Iterate_body h tag input found s <> Return st s'.
Proof.
  unfold decode_failure, WriteBatch.Iterate_body. cbn [payload_decodes].
  repeat match goal with
  | |- context [if ?c =? ?d then _ else _] => destruct (c =? d)
  | |- context [Coding.GetLengthPrefixedSlice ?i] =>
      destruct (Coding.GetLengthPrefixedSlice i) as [[? ?]|]
  end;
  intros H; try discriminate;
  match goal with
  | |- WriteBatch.after_call ?o _ _ <> _ => destruct o; discriminate
  end.
Qed.

Lemma decode_failure_msg (input : bytes) (msg : string) :
  decode_failure input = Some msg ->
  msg <> "WriteBatch has wrong count"%string.
Proof.
  destruct input as [|tag payload]; [discriminate|].
  unfold decode_failure.
  repeat match goal with
  | |- context [if ?c then _ else _] => destruct c
  end;
  intros H; try discriminate; injection H as <-; discriminate.
Qed.

Lemma reaches_corruption {S : Type} (h : Handler.t S) (count : Z)
    (input : bytes) (found : Z) (s : S) (input' : bytes) (found' : Z)
    (s0 s' : S) (msg : string) :
  reaches h input found s input' found' s0 ->
  Handler.Continue h s0 = (true, s') ->
  decode_failure input' = Some msg ->
  Iterate_from h count input found s = Returned (Corruption msg) s'.
Proof.
  intros Hr Hc Hd.
  induction Hr as [input found s|tag input found s s1 input1 found1 s2
                                  input' found' s0 Hcont Hbody Hr IH].
  - destruct input as [|tag input]; [discriminate|].
    rewrite Iterate_from_cons, Hc.
    rewrite (decode_failure_Return h tag input found s' msg Hd). reflexivity.
  - rewrite Iterate_from_cons, Hcont, Hbody. apply IH; assumption.
Qed.

Lemma corruption_reaches {S : Type} (h : Handler.t S) (count : Z) (msg : string)
    (s' : S) :
  msg <> "WriteBatch has wrong count"%string ->
  forall (n : nat) (input : bytes) (found : Z) (s : S),
  (length input <= n)%nat ->
  Iterate_from h count input found s = Returned (Corruption msg) s' ->
  exists input' found' s0,
    reaches h input found s input' found' s0 /\
    Handler.Continue h s0 = (true, s') /\
    decode_failure input' = Some msg.
Proof.
  intros Hmsg. induction n as [|n IH]; intros input found s Hn H.
  - destruct input; [|simpl in Hn; lia].
    rewrite Iterate_from_nil in H. unfold WriteBatch.Iterate_finish in H.
    destruct (negb (found =? count)); [|discriminate].
    injection H as H _. congruence.
  - destruct input as [|tag input].
    + rewrite Iterate_from_nil in H. unfold WriteBatch.Iterate_finish in H.
      destruct (negb (found =? count)); [|discriminate].
      injection H as H _. congruence.
    + rewrite Iterate_from_cons in H.
      destruct (Handler.Continue h s) as [c s1] eqn:Hc.
      destruct c.
      * destruct (WriteBatch.Iterate_body h tag input found s1)
          as [input1 found1 s2|st s2|what s2|what] eqn:Hb; try discriminate.
        -- pose proof (Iterate_body_length _ _ _ _ _ _ _ _ Hb) as Hlen.
           simpl in Hn.
           destruct (IH input1 found1 s2 ltac:(lia) H)
             as (input' & found' & s0 & Hr & Hc' & Hd).
           exists input', found', s0. split; [|auto].
           eapply reaches_turn; eassumption.
        -- injection H as -> ->.
           destruct (decode_failure (tag :: input)) as [msg'|] eqn:Hd.
           ++ rewrite (decode_failure_Return h tag input found s1 msg' Hd) in Hb.
              injection Hb as <- <-.
              exists (tag :: input), found, s. split; [constructor|auto].
           ++ exfalso. exact (decode_failure_None h tag input found s1 _ _ Hd Hb).
      * unfold WriteBatch.Iterate_finish in H.
        destruct (negb (found =? count)); [|discriminate].
        injection H as H _. congruence.
Qed.

(** C5: [Iterate] returns a corruption error other than the count mismatch
    exactly in these cases: the buffer is shorter than the 12-byte header
    ("too small", the handler untouched); or the loop, after turns that
    each delivered a record, meets an unassigned tag byte ("unknown tag")
    or an assigned tag with a truncated or malformed payload (the error of
    that kind of record).  The handler state returned with the error is
    the state after the calls delivered before the failure and the call of
    [Continue] of the failing turn: nothing is rolled back and nothing is
    called after the failure. *)
Theorem Iterate_corruption {S : Type} (b : WriteBatch) (h : Handler.t S)
    (s s' : S) (msg : string) :
  (WriteBatch.Iterate b h s = Returned (Corruption msg) s' /\
   msg <> "WriteBatch has wrong count"%string)
  <->
  ((length (rep_ b) < kHeader)%nat /\
   msg = "malformed WriteBatch (too small)"%string /\ s' = s) \/
  ((kHeader <= length (rep_ b))%nat /\
   exists input found s0,
     reaches h (skipn kHeader (rep_ b)) 0 s input found s0 /\
     Handler.Continue h s0 = (true, s') /\
     decode_failure input = Some msg).
Proof.
  split.
  - intros [H Hmsg].
    destruct (Nat.lt_ge_cases (length (rep_ b)) kHeader) as [Hlt|Hge].
    + left. rewrite Iterate_too_small in H by exact Hlt.
      injection H as <- <-. auto.
    + right. split; [exact Hge|].
      rewrite Iterate_unfold in H by exact Hge.
      eapply corruption_reaches; [exact Hmsg|apply Nat.le_refl|exact H].
  - intros [(Hlt & -> & ->)|(Hge & input & found & s0 & Hr & Hc & Hd)].
    + split; [apply Iterate_too_small; exact Hlt|discriminate].
    + split; [|eapply decode_failure_msg; exact Hd].
      rewrite Iterate_unfold by exact Hge.
      eapply reaches_corruption; eassumption.
Qed.

Example Iterate_truncated_example :
  WriteBatch.Iterate truncated_example WriteBatch.recorder []
  = Returned (Corruption "bad WriteBatch Delete") [OpPut ["a"%byte] ["1"%byte]].
Proof. vm_compute. reflexivity. Qed.

Example Iterate_unassigned_tag :
  WriteBatch.Iterate
    {| rep_ := rep_ (WriteBatch.apply_ops [OpDelete ["b"%byte]] WriteBatch.new)
               ++ [x04; x01; "c"%byte] |}
    WriteBatch.recorder []
  = Returned (Corruption "unknown WriteBatch tag") [OpDelete ["b"%byte]].
Proof. vm_compute. reflexivity. Qed.

(** ** The count check after an early stop (C2) *)

(** When [Continue] returns false at the first turn, the found-counter 0 is
    compared with the count field all the same. *)
Lemma Iterate_stopped_at_once {S : Type} (b : WriteBatch) (h : Handler.t S)
    (s s1 : S) :
  (kHeader < length (rep_ b))%nat ->
  Handler.Continue h s = (false, s1) ->
  WriteBatch.Iterate b h s
  = WriteBatch.Iterate_finish (WriteBatchInternal.Count b) 0 s1.
Proof.
  intros Hl Hc. rewrite Iterate_unfold by lia.
  destruct (skipn kHeader (rep_ b)) as [|tag input] eqn:E.
  - apply (f_equal (@length byte)) in E. rewrite length_skipn in E.
    simpl in E. lia.
  - rewrite Iterate_from_cons, Hc. reflexivity.
Qed.

(** C2, the code at the failing input: the well-formed example batch
    (count 3) replayed through a handler that stops after the first record
    is reported as corrupt, with the count-mismatch error. *)
Theorem early_stop_wrong_count :
  WriteBatch.Iterate (WriteBatch.apply_ops example_ops WriteBatch.new)
    (stop_after 1) []
  = Returned (Corruption "WriteBatch has wrong count")
      [OpPut ["a"%byte] ["1"%byte]].
Proof. vm_compute. reflexivity. Qed.

(** ** The sequence counter of the applier (C1) *)

Section Applier.

Variable C : Collaborators.
Variable options_ : Options.
Variable has_db : bool.
Variable filter_deletes_ : bool.

Lemma Put_advances (key value : bytes) (s s' : MemTableInserter.t C) :
  MemTableInserter.Put C options_ has_db key value s = Normal s' ->
  MemTableInserter.sequence_ s' = wrap64 (MemTableInserter.sequence_ s + 1).
Proof.
  unfold MemTableInserter.Put.
  destruct (negb (inplace_update_support options_)).
  - intros H. injection H as <-. reflexivity.
  - destruct (inplace_callback options_) as [callback|].
    + destruct (UpdateCallback C _ key value _) as [updated mem1].
      destruct updated; [intros H; injection H as <-; reflexivity|].
      destruct (negb has_db); [discriminate|].
      cbn [MemTableInserter.sequence_ MemTableInserter.mem_].
      destruct (Get C _ key mem1) as [ok prev_value].
      destruct (cb_status _); intros H; injection H as <-; reflexivity.
    + intros H. injection H as <-. reflexivity.
Qed.

Lemma Merge_advances (key value : bytes) (s s' : MemTableInserter.t C) :
  MemTableInserter.Merge C options_ has_db key value s = Normal s' ->
  MemTableInserter.sequence_ s' = wrap64 (MemTableInserter.sequence_ s + 1).
Proof.
  unfold MemTableInserter.Merge.
  destruct (MemTableInserter.perform_merge C options_ has_db key s).
  - destruct (merge_operator options_) as [FullMerge|]; [|discriminate].
    destruct (FullMerge key _ _); intros H; injection H as <-; reflexivity.
  - intros H. injection H as <-. reflexivity.
Qed.

(** [Delete] advances the sequence counter unless the delete is filtered
    out: the filtered branch returns before [sequence_++]. *)
Lemma Delete_sequence (key : bytes) (s s' : MemTableInserter.t C) :
  MemTableInserter.Delete C has_db filter_deletes_ key s = Normal s' ->
  MemTableInserter.sequence_ s'
  = if filter_deletes_ &&
       negb (KeyMayExist C (MemTableInserter.sequence_ s) key
               (MemTableInserter.mem_ s))
    then MemTableInserter.sequence_ s
    else wrap64 (MemTableInserter.sequence_ s + 1).
Proof.
  unfold MemTableInserter.Delete.
  destruct filter_deletes_; cbn [andb].
  - destruct (negb has_db); [discriminate|].
    destruct (negb (KeyMayExist C _ key _));
      intros H; injection H as <-; reflexivity.
  - intros H. injection H as <-. reflexivity.
Qed.

End Applier.

(** C1, the code at the failing input: a batch with base sequence 100 and
    three deletes, applied with delete filtering over a store in which no
    key may exist, writes nothing to the table and leaves the running
    sequence at 100, not at 103. *)
Theorem filtered_deletes_keep_sequence :
  WriteBatchInternal.Sequence three_deletes = 100 /\
  WriteBatch.Count three_deletes = 3 /\
  MemTableInserter.InsertInto ListTable.collaborators ListTable.no_options
    true true three_deletes []
  = Returned OK
      (MemTableInserter.Build_t ListTable.collaborators 100 []
         [NUMBER_FILTERED_DELETES; NUMBER_FILTERED_DELETES;
          NUMBER_FILTERED_DELETES]).
Proof. repeat split. Qed.

(** ** Merge in the applier (C7, C8) *)

Lemma perform_merge_spec (C : Collaborators) (options_ : Options)
    (has_db : bool) (key : bytes) (s : MemTableInserter.t C) :
  MemTableInserter.perform_merge C options_ has_db key s
  = (0 <? max_successive_merges options_) && has_db &&
    (max_successive_merges options_
       <=? CountSuccessiveMergeEntries C key (MemTableInserter.sequence_ s)
             (MemTableInserter.mem_ s)).
Proof.
  unfold MemTableInserter.perform_merge.
  rewrite Z.gtb_ltb, Z.geb_leb. reflexivity.
Qed.

(** C7, as amended: with no merge function configured, the applier's
    [Merge] fails (the assertion on the merge function) only when it
    resolves eagerly, that is when the threshold is above 0, a store is
    attached and the count of pending merge entries has reached the
    threshold; in every other case it appends the operand as a deferred
    Merge record at the current sequence and advances the sequence. *)
Theorem Merge_without_operator (C : Collaborators) (options_ : Options)
    (has_db : bool) (key value : bytes) (s : MemTableInserter.t C) :
  merge_operator options_ = None ->
  let seq := MemTableInserter.sequence_ s in
  let mem := MemTableInserter.mem_ s in
  MemTableInserter.Merge C options_ has_db key value s
  = if (0 <? max_successive_merges options_) && has_db &&
       (max_successive_merges options_
          <=? CountSuccessiveMergeEntries C key seq mem)
    then Fatal "assert(merge_operator)"
    else Normal (MemTableInserter.Build_t C (wrap64 (seq + 1))
                   (Add C seq TypeMerge key value mem)
                   (MemTableInserter.ticks_ s)).
Proof.
  intros Hop seq mem. unfold MemTableInserter.Merge.
  rewrite perform_merge_spec. fold seq mem.
  destruct ((0 <? max_successive_merges options_) && has_db &&
            (max_successive_merges options_
               <=? CountSuccessiveMergeEntries C key seq mem)).
  - rewrite Hop. reflexivity.
  - reflexivity.
Qed.

Lemma Merge_without_operator_witness :
  merge_operator ListTable.no_options = None /\
  MemTableInserter.Merge ListTable.collaborators ListTable.no_options true
    ["k"%byte] ["v"%byte] one_pending
  = Normal (MemTableInserter.Build_t ListTable.collaborators 8
              [(7, TypeMerge, ["k"%byte], ["v"%byte]);
               (6, TypeMerge, ["k"%byte], ["x"%byte])] []).
Proof.
  split; [reflexivity|].
  exact (Merge_without_operator ListTable.collaborators ListTable.no_options
           true ["k"%byte] ["v"%byte] one_pending eq_refl).
Defined.

(** C7, counterexample: with no merge function configured and the
    threshold at 0, [Merge] returns normally and the operand is in the
    table. *)
Lemma Merge_without_operator_is_silent :
  merge_operator ListTable.no_options = None /\
  MemTableInserter.Merge ListTable.collaborators ListTable.no_options true
    ["k"%byte] ["v"%byte]
    (MemTableInserter.Build_t ListTable.collaborators 7 [] [])
  = Normal (MemTableInserter.Build_t ListTable.collaborators 8
              [(7, TypeMerge, ["k"%byte], ["v"%byte])] []).
Proof. split; reflexivity. Qed.


Example Merge_policy_failure :
  MemTableInserter.Merge ListTable.collaborators
    {| inplace_update_support := false; inplace_callback := None;
       max_successive_merges := 1; merge_operator := Some failing_merge |}
    true ["k"%byte] ["v"%byte] one_pending
  = Normal (MemTableInserter.Build_t ListTable.collaborators 8
              [(7, TypeMerge, ["k"%byte], ["v"%byte]);
               (6, TypeMerge, ["k"%byte], ["x"%byte])]
              [NUMBER_MERGE_FAILURES]).
Proof. reflexivity. Qed.


(** ** Replay reads the batch and is determined by it (C6) *)

Lemma Iterate_body_traced {S : Type} (h : Handler.t S) (tag : byte)
    (input : bytes) (found : Z) (s : S) (t : list Op) :
  always_returns h ->
  match WriteBatch.Iterate_body WriteBatch.recorder tag input found t with
  | Next input' found' t' =>
      exists s', WriteBatch.Iterate_body (traced h) tag input found (s, t)
                 = Next input' found' (s', t')
  | Return st t' =>
      t' = t /\
      WriteBatch.Iterate_body (traced h) tag input found (s, t) = Return st (s, t)
  | _ => False
  end.
Proof.
  intros Hr. unfold WriteBatch.Iterate_body.
  repeat match goal with
  | |- context [if ?c =? ?d then _ else _] => destruct (c =? d)
  | |- context [Coding.GetLengthPrefixedSlice ?i] =>
      destruct (Coding.GetLengthPrefixedSlice i) as [[? ?]|]
  end;
  try (split; reflexivity);
  cbn [WriteBatch.recorder traced Handler.Put Handler.Delete Handler.Merge
         Handler.LogData WriteBatch.after_call];
  unfold log_call; cbn [fst snd];
  match goal with
  | |- context [deliver h ?op s] =>
      destruct (Hr op s) as [s' ->]; exists s'; reflexivity
  end.
Qed.

(** The calls a handler receives are those the recorder receives: they
    depend on the bytes only, for a handler that always continues and
    whose calls return. *)
Lemma Iterate_from_traced {S : Type} (h : Handler.t S) (count : Z) :
  always_continues h -> always_returns h ->
  forall (n : nat) (input : bytes) (found : Z) (s : S) (t : list Op),
  (length input <= n)%nat ->
  exists st t' s',
    Iterate_from WriteBatch.recorder count input found t = Returned st t' /\
    Iterate_from (traced h) count input found (s, t) = Returned st (s', t').
Proof.
  intros Hc Hr. induction n as [|n IH]; intros input found s t Hn.
  - destruct input; [|simpl in Hn; lia].
    rewrite !Iterate_from_nil. unfold WriteBatch.Iterate_finish.
    destruct (negb (found =? count)); eauto.
  - destruct input as [|tag input].
    + rewrite !Iterate_from_nil. unfold WriteBatch.Iterate_finish.
      destruct (negb (found =? count)); eauto.
    + rewrite !Iterate_from_cons.
      cbn [traced WriteBatch.recorder Handler.Continue Handler.default_Continue fst snd].
      rewrite Hc.
      pose proof (Iterate_body_traced h tag input found s t Hr) as Hb.
      destruct (WriteBatch.Iterate_body WriteBatch.recorder tag input found t)
        as [input' found' t'|st t'|what t'|what] eqn:E; try contradiction.
      * destruct Hb as [s' ->].
        apply Iterate_body_length in E. simpl in Hn.
        apply IH. lia.
      * destruct Hb as [-> ->]. eauto.
Qed.

(** For a handler that always continues and whose calls return, the status
    and the calls of a dispatch are those the recorder sees. *)
Lemma Iterate_calls_from_bytes {S : Type} (b : WriteBatch) (h : Handler.t S)
    (s : S) :
  always_continues h -> always_returns h ->
  exists st calls,
    WriteBatch.Iterate b WriteBatch.recorder [] = Returned st calls /\
    status_and_calls (WriteBatch.Iterate b (traced h) (s, [])) = Some (st, calls).
Proof.
  intros Hc Hr.
  destruct (Nat.lt_ge_cases (length (rep_ b)) kHeader) as [Hlt|Hge].
  - rewrite !Iterate_too_small by exact Hlt. eauto.
  - rewrite !Iterate_unfold by exact Hge.
    destruct (Iterate_from_traced h (WriteBatchInternal.Count b) Hc Hr
                _ (skipn kHeader (rep_ b)) 0 s [] (Nat.le_refl _))
      as (st & t' & s' & -> & ->).
    eauto.
Qed.

(** ** The header accessors *)

Lemma DecodeFixed_bound (n : nat) : forall q,
  0 <= Coding.DecodeFixed n q < 2 ^ (8 * Z.of_nat n).
Proof.
  induction n as [|n IH]; intros q; [simpl; lia|].
  cbn [Coding.DecodeFixed].
  pose proof (byte_to_Z_range (hd x00 q)) as Hb.
  pose proof (IH (tl q)) as Hd.
  assert (Hl : Z.land (byte_to_Z (hd x00 q))
                      (Z.shiftl (Coding.DecodeFixed n (tl q)) 8) = 0).
  { apply Z.bits_inj'. intros i Hi. rewrite Z.land_spec, Z.bits_0.
    destruct (Z.ltb_spec i 8).
    - rewrite Z.shiftl_spec_low by lia. apply andb_false_r.
    - replace (Z.testbit (byte_to_Z (hd x00 q)) i) with false; [reflexivity|].
      symmetry. destruct (Z.eq_dec (byte_to_Z (hd x00 q)) 0) as [->|Hz].
      + apply Z.bits_0.
      + apply Z.bits_above_log2; [lia|].
        apply Z.lt_le_trans with 8; [|lia].
        apply Z.log2_lt_pow2; [lia|]. change (2 ^ 8) with 256. lia. }
  pose proof (Z.add_lor_land (byte_to_Z (hd x00 q))
                (Z.shiftl (Coding.DecodeFixed n (tl q)) 8)) as Ha.
  rewrite Hl, Z.add_0_r in Ha. rewrite Ha.
  rewrite Z.shiftl_mul_pow2 by lia.
  replace (8 * Z.of_nat (S n)) with (8 * Z.of_nat n + 8) by lia.
  rewrite Z.pow_add_r by lia. change (2 ^ 8) with 256. nia.
Qed.

Lemma Sequence_range (b : WriteBatch) :
  0 <= WriteBatchInternal.Sequence b < 2 ^ 64.
Proof. apply (DecodeFixed_bound 8). Qed.

Lemma DecodeFixed64_EncodeFixed64 (v : Z) (rest : bytes) :
  Coding.DecodeFixed64 (Coding.EncodeFixed64 v ++ rest) = wrap64 v.
Proof.
  unfold Coding.DecodeFixed64, Coding.EncodeFixed64.
  rewrite DecodeFixed_app by apply EncodeFixed_length.
  rewrite DecodeFixed_EncodeFixed. change (8 * Z.of_nat 8) with 64.
  unfold wrap64. apply Z.mod_mod. lia.
Qed.

Lemma Count_skipn8 (b1 b2 : WriteBatch) :
  skipn 8 (rep_ b1) = skipn 8 (rep_ b2) ->
  WriteBatchInternal.Count b1 = WriteBatchInternal.Count b2.
Proof. unfold WriteBatchInternal.Count. intros ->. reflexivity. Qed.

(** X1: on a batch with its header, [SetSequence] followed by [Sequence]
    gives the sequence number written (reduced to 64 bits), and
    [SetSequence] changes neither the count, nor the bytes behind the
    sequence field, nor the length of the buffer. *)
Theorem SetSequence_spec (b : WriteBatch) (seq : Z) :
  (kHeader <= length (rep_ b))%nat ->
  WriteBatchInternal.Sequence (WriteBatchInternal.SetSequence b seq) = wrap64 seq /\
  WriteBatchInternal.Count (WriteBatchInternal.SetSequence b seq)
    = WriteBatchInternal.Count b /\
  skipn 8 (rep_ (WriteBatchInternal.SetSequence b seq)) = skipn 8 (rep_ b) /\
  length (rep_ (WriteBatchInternal.SetSequence b seq)) = length (rep_ b).
Proof.
  unfold kHeader. intros Hb.
  assert (Hs : skipn 8 (rep_ (WriteBatchInternal.SetSequence b seq))
               = skipn 8 (rep_ b)).
  { cbn [WriteBatchInternal.SetSequence rep_].
    rewrite skipn_app.
    rewrite skipn_all2 by (unfold Coding.EncodeFixed64; rewrite EncodeFixed_length; lia).
    unfold Coding.EncodeFixed64. rewrite EncodeFixed_length. reflexivity. }
  split; [|split; [|split]].
  - unfold WriteBatchInternal.Sequence. cbn [WriteBatchInternal.SetSequence rep_].
    apply DecodeFixed64_EncodeFixed64.
  - apply Count_skipn8. exact Hs.
  - exact Hs.
  - cbn [WriteBatchInternal.SetSequence rep_].
    rewrite length_app, length_skipn. unfold Coding.EncodeFixed64.
    rewrite EncodeFixed_length. lia.
Qed.

Lemma SetSequence_spec_witness :
  (kHeader <= length (rep_ batch_7_2))%nat /\
  WriteBatchInternal.Sequence (WriteBatchInternal.SetSequence batch_7_2 100) = 100 /\
  WriteBatchInternal.Count (WriteBatchInternal.SetSequence batch_7_2 100) = 2.
Proof.
  assert (H : (kHeader <= length (rep_ batch_7_2))%nat) by (vm_compute; lia).
  destruct (SetSequence_spec batch_7_2 100 H) as (Hq & Hc & _).
  split; [exact H|]. split; [exact Hq|]. rewrite Hc. reflexivity.
Defined.

(** X2: on a batch with its header, [Count] after [SetCount(n)] is [n]
    for every [int] [n], and [SetCount] changes neither the sequence
    number, nor the records behind the header, nor the length of the
    buffer. *)
Theorem SetCount_spec (b : WriteBatch) (n : Z) :
  (kHeader <= length (rep_ b))%nat ->
  - 2 ^ 31 <= n < 2 ^ 31 ->
  WriteBatchInternal.Count (WriteBatchInternal.SetCount b n) = n /\
  WriteBatchInternal.Sequence (WriteBatchInternal.SetCount b n)
    = WriteBatchInternal.Sequence b /\
  skipn kHeader (rep_ (WriteBatchInternal.SetCount b n)) = skipn kHeader (rep_ b) /\
  length (rep_ (WriteBatchInternal.SetCount b n)) = length (rep_ b).
Proof.
  intros Hb Hn. unfold kHeader in Hb. split; [|split; [|split]].
  - rewrite Count_SetCount by lia. apply to_int_small. exact Hn.
  - apply Sequence_firstn8. apply SetCount_firstn8. lia.
  - apply SetCount_skipn12. lia.
  - apply SetCount_length. exact Hb.
Qed.

Lemma SetCount_spec_witness :
  (kHeader <= length (rep_ batch_7_2))%nat /\
  - 2 ^ 31 <= -5 < 2 ^ 31 /\
  WriteBatchInternal.Count (WriteBatchInternal.SetCount batch_7_2 (-5)) = -5 /\
  WriteBatchInternal.Sequence (WriteBatchInternal.SetCount batch_7_2 (-5)) = 7.
Proof.
  assert (H : (kHeader <= length (rep_ batch_7_2))%nat) by (vm_compute; lia).
  assert (Hn : - 2 ^ 31 <= -5 < 2 ^ 31) by lia.
  destruct (SetCount_spec batch_7_2 (-5) H Hn) as (Hc & Hq & _).
  split; [exact H|]. split; [exact Hn|]. split; [exact Hc|].
  rewrite Hq. reflexivity.
Defined.

(** ** Replay of arbitrary bytes *)

(** X3: a batch that is its 12-byte header alone is replayed without any
    call of the handler, [Continue] included; the result is OK when the
    count field is 0 and the count-mismatch corruption otherwise. *)
Theorem Iterate_header_only {S : Type} (b : WriteBatch) (h : Handler.t S) (s : S) :
  length (rep_ b) = kHeader ->
  WriteBatch.Iterate b h s
  = Returned (if WriteBatch.Count b =? 0 then OK
              else Corruption "WriteBatch has wrong count") s.
Proof.
  intros Hl. rewrite Iterate_unfold by lia.
  rewrite skipn_all2 by lia. rewrite Iterate_from_nil.
  unfold WriteBatch.Iterate_finish, WriteBatch.Count.
  rewrite Z.eqb_sym. destruct (WriteBatchInternal.Count b =? 0); reflexivity.
Qed.

Lemma Iterate_header_only_witness :
  length (rep_ half_full) = kHeader /\
  WriteBatch.Iterate half_full (stop_after 0) []
  = Returned (Corruption "WriteBatch has wrong count") [].
Proof.
  split; [reflexivity|].
  exact (Iterate_header_only half_full (stop_after 0) [] eq_refl).
Defined.

Lemma Iterate_body_decode {S : Type} (h : Handler.t S) (tag : byte)
    (input : bytes) (found : Z) (s : S) :
  match decode_record tag input with
  | Some (op, input') =>
      WriteBatch.Iterate_body h tag input found s
      = WriteBatch.after_call (deliver h op s) input'
          (if is_mutation op then int_add found 1 else found)
  | None =>
      exists msg, WriteBatch.Iterate_body h tag input found s
                  = Return (Corruption msg) s
  end.
Proof.
  unfold decode_record, WriteBatch.Iterate_body.
  repeat match goal with
  | |- context [if ?c =? ?d then _ else _] => destruct (c =? d)
  | |- context [Coding.GetLengthPrefixedSlice ?i] =>
      destruct (Coding.GetLengthPrefixedSlice i) as [[? ?]|]
  end;
  solve [reflexivity | eexists; reflexivity].
Qed.

Lemma decode_record_length (tag : byte) (input : bytes) (op : Op) (input' : bytes) :
  decode_record tag input = Some (op, input') ->
  (length input' < length input)%nat.
Proof.
  unfold decode_record.
  repeat match goal with
  | |- context [if ?c =? ?d then _ else _] => destruct (c =? d)
  | |- context [Coding.GetLengthPrefixedSlice ?i] =>
      let E := fresh "E" in
      destruct (Coding.GetLengthPrefixedSlice i) as [[? ?]|] eqn:E;
      [apply GetLengthPrefixedSlice_length in E|]
  end;
  intros H; try discriminate; injection H as _ <-; lia.
Qed.

Lemma deliver_recorder (op : Op) (t : list Op) :
  deliver WriteBatch.recorder op t = Normal (t ++ [op]).
Proof. destruct op; reflexivity. Qed.

(** The recorder always returns, with the calls it had and those it
    received. *)
Lemma Iterate_from_recorder (count : Z) : forall (n : nat) (input : bytes)
    (found : Z) (t : list Op),
  (length input <= n)%nat ->
  exists st calls,
    Iterate_from WriteBatch.recorder count input found t = Returned st (t ++ calls).
Proof.
  induction n as [|n IH]; intros input found t Hn.
  - destruct input; [|simpl in Hn; lia].
    rewrite Iterate_from_nil. unfold WriteBatch.Iterate_finish.
    destruct (negb (found =? count)); eexists; exists []; rewrite app_nil_r; reflexivity.
  - destruct input as [|tag input].
    + rewrite Iterate_from_nil. unfold WriteBatch.Iterate_finish.
      destruct (negb (found =? count)); eexists; exists []; rewrite app_nil_r; reflexivity.
    + rewrite Iterate_from_cons.
      cbn [WriteBatch.recorder Handler.Continue Handler.default_Continue].
      pose proof (Iterate_body_decode WriteBatch.recorder tag input found t) as Hb.
      destruct (decode_record tag input) as [[op input']|] eqn:E.
      * rewrite Hb, deliver_recorder. cbn [WriteBatch.after_call].
        apply decode_record_length in E. simpl in Hn.
        destruct (IH input' (if is_mutation op then int_add found 1 else found)
                    (t ++ [op]) ltac:(lia)) as (st & calls & ->).
        exists st, (op :: calls). rewrite <- app_assoc. reflexivity.
      * destruct Hb as [msg ->]. eexists; exists []; rewrite app_nil_r; reflexivity.
Qed.

(** The replay of a body that begins with the encoding of the records
    [ops]: they are delivered, and the loop goes on behind them. *)
Lemma Iterate_encoded_prefix {S : Type} (h : Handler.t S) (b : WriteBatch)
    (hdr : bytes) (ops : list Op) (tail : bytes) (s : S) :
  always_continues h ->
  rep_ b = hdr ++ encode_ops ops ++ tail ->
  length hdr = kHeader ->
  Forall small_op ops ->
  WriteBatch.Iterate b h s
  = match deliver_all h ops s with
    | Normal s' =>
        Iterate_from h (WriteBatchInternal.Count b) tail (found_after 0 ops) s'
    | Thrown what s' => Raised what s'
    | Fatal what => Aborted what
    end.
Proof.
  intros Hc Hrep Hhdr Hs.
  rewrite Iterate_unfold by (rewrite Hrep, length_app; lia).
  rewrite Hrep, skipn_app, Hhdr, Nat.sub_diag, skipn_O.
  rewrite skipn_all2 by lia. cbn [app].
  apply (Iterate_from_encode_ops h _ _ Hc ops 0 s Hs).
Qed.

(** The check after the loop, once the records [ops] were delivered. *)
Lemma Iterate_finish_count {S : Type} (b : WriteBatch) (ops : list Op) (s : S) :
  WriteBatch.Iterate_finish (WriteBatchInternal.Count b) (found_after 0 ops) s
  = Returned (if WriteBatch.Count b =? to_int (wrap32 (WriteBatch.mutations ops))
              then OK else Corruption "WriteBatch has wrong count") s.
Proof.
  rewrite found_after_int_add by lia.
  unfold WriteBatch.Iterate_finish, WriteBatch.Count, int_add.
  rewrite Z.add_0_l, Z.eqb_sym.
  destruct (WriteBatchInternal.Count b =? to_int (wrap32 (WriteBatch.mutations ops)));
    reflexivity.
Qed.

(** X4: for a handler that keeps the inherited [Continue], the replay of a
    batch whose body encodes the records [ops] (strings shorter than 2^32
    bytes, any header) delivers these records in order, up to the first
    call that does not return; when all calls return, all records have
    been delivered and the result is OK if the count field is the number
    of point mutations, the count-mismatch corruption otherwise. *)
Theorem Iterate_well_formed {S : Type} (h : Handler.t S) (b : WriteBatch)
    (hdr : bytes) (ops : list Op) (s : S) :
  always_continues h ->
  rep_ b = hdr ++ encode_ops ops ->
  length hdr = kHeader ->
  Forall small_op ops ->
  WriteBatch.Iterate b h s
  = match deliver_all h ops s with
    | Normal s' =>
        Returned (if WriteBatch.Count b =? to_int (wrap32 (WriteBatch.mutations ops))
                  then OK else Corruption "WriteBatch has wrong count") s'
    | Thrown what s' => Raised what s'
    | Fatal what => Aborted what
    end.
Proof.
  intros Hc Hrep Hhdr Hs.
  rewrite <- (app_nil_r (encode_ops ops)) in Hrep.
  rewrite (Iterate_encoded_prefix h b hdr ops [] s Hc Hrep Hhdr Hs).
  destruct (deliver_all h ops s) as [s'|what s'|what]; try reflexivity.
  rewrite Iterate_from_nil. apply Iterate_finish_count.
Qed.

Lemma Iterate_well_formed_witness :
  always_continues WriteBatch.recorder /\
  Forall small_op example_ops /\
  WriteBatch.Iterate
    (WriteBatchInternal.SetCount
       (WriteBatch.apply_ops example_ops WriteBatch.new) 4)
    WriteBatch.recorder []
  = Returned (Corruption "WriteBatch has wrong count") example_ops.
Proof.
  assert (Hc : always_continues WriteBatch.recorder) by (intros s; reflexivity).
  split; [exact Hc|]. split; [exact small_op_example|].
  exact (Iterate_well_formed WriteBatch.recorder
           (WriteBatchInternal.SetCount
              (WriteBatch.apply_ops example_ops WriteBatch.new) 4)
           [x00; x00; x00; x00; x00; x00; x00; x00; x04; x00; x00; x00]
           example_ops [] Hc eq_refl eq_refl small_op_example).
Defined.

(** Whatever the handler does, its calls are an initial part of the
    recorder's. *)
Lemma Iterate_from_prefix {S : Type} (h : Handler.t S) (count : Z) :
  forall (n : nat) (input : bytes) (found : Z) (s : S) (t : list Op),
  (length input <= n)%nat ->
  exists st calls p,
    Iterate_from WriteBatch.recorder count input found t = Returned st (t ++ calls) /\
    is_prefix p calls /\
    match Iterate_from (traced h) count input found (s, t) with
    | Returned _ (_, c) | Raised _ (_, c) => c = t ++ p
    | Aborted _ => True
    end.
Proof.
  induction n as [|n IH]; intros input found s t Hn.
  - destruct input; [|simpl in Hn; lia].
    rewrite !Iterate_from_nil. unfold WriteBatch.Iterate_finish.
    destruct (negb (found =? count));
      eexists; exists [], []; rewrite app_nil_r;
      (split; [reflexivity|split; [exists []; reflexivity|reflexivity]]).
  - destruct input as [|tag input].
    + rewrite !Iterate_from_nil. unfold WriteBatch.Iterate_finish.
      destruct (negb (found =? count));
        eexists; exists [], []; rewrite app_nil_r;
        (split; [reflexivity|split; [exists []; reflexivity|reflexivity]]).
    + destruct (Iterate_from_recorder count (Datatypes.S n) (tag :: input) found t Hn)
        as (st0 & calls0 & Hrec).
      rewrite (Iterate_from_cons (traced h)).
      cbn [traced Handler.Continue fst snd].
      destruct (Handler.Continue h s) as [c s1].
      destruct c.
      * rewrite (Iterate_from_cons WriteBatch.recorder).
        cbn [WriteBatch.recorder Handler.Continue Handler.default_Continue].
        pose proof (Iterate_body_decode WriteBatch.recorder tag input found t) as Hb.
        pose proof (Iterate_body_decode (traced h) tag input found (s1, t)) as Hb'.
        destruct (decode_record tag input) as [[op input']|] eqn:E.
        -- rewrite Hb, Hb', deliver_recorder. cbn [WriteBatch.after_call].
           apply decode_record_length in E. simpl in Hn.
           assert (Hd : deliver (traced h) op (s1, t) = log_call h op (s1, t))
             by (destruct op; reflexivity).
           rewrite Hd. unfold log_call. cbn [fst snd].
           destruct (deliver h op s1) as [s'|what s'|what];
             cbn [WriteBatch.after_call].
           ++ destruct (IH input' (if is_mutation op then int_add found 1 else found)
                          s' (t ++ [op]) ltac:(lia))
                as (st & calls & p & -> & [rest Hp] & Ht).
              exists st, (op :: calls), (op :: p).
              rewrite <- app_assoc. split; [reflexivity|].
              split; [exists rest; rewrite Hp; reflexivity|].
              destruct (Iterate_from (traced h) count input' _ (s', t ++ [op]))
                as [? [? c]|? [? c]|?]; try exact I;
                rewrite Ht, <- app_assoc; reflexivity.
           ++ destruct (IH input' (if is_mutation op then int_add found 1 else found)
                          s' (t ++ [op]) ltac:(lia))
                as (st & calls & _ & -> & _ & _).
              exists st, (op :: calls), [op].
              rewrite <- app_assoc. split; [reflexivity|].
              split; [exists calls; reflexivity|reflexivity].
           ++ destruct (IH input' (if is_mutation op then int_add found 1 else found)
                          s1 (t ++ [op]) ltac:(lia))
                as (st & calls & _ & -> & _ & _).
              exists st, (op :: calls), [].
              rewrite <- app_assoc. split; [reflexivity|].
              split; [exists (op :: calls); reflexivity|exact I].
        -- destruct Hb as [msg ->]. destruct Hb' as [msg' ->].
           eexists; exists [], []; rewrite app_nil_r;
             (split; [reflexivity|split; [exists []; reflexivity|reflexivity]]).
      * exists st0, calls0, []. rewrite app_nil_r.
        split; [exact Hrec|]. split; [exists calls0; reflexivity|].
        unfold WriteBatch.Iterate_finish.
        destruct (negb (found =? count)); reflexivity.
Qed.

(** X5: whatever a handler does (stop through [Continue], throw, or go
    on), the calls it receives during a dispatch are an initial part, in
    the same order, of the calls a recording handler receives from the
    same batch: a handler can cut the replay short, never change what is
    replayed. *)
Theorem Iterate_calls_prefix {S : Type} (b : WriteBatch) (h : Handler.t S) (s : S) :
  exists st ops,
    WriteBatch.Iterate b WriteBatch.recorder [] = Returned st ops /\
    is_prefix (logged_calls (WriteBatch.Iterate b (traced h) (s, []))) ops.
Proof.
  destruct (Nat.lt_ge_cases (length (rep_ b)) kHeader) as [Hlt|Hge].
  - rewrite !Iterate_too_small by exact Hlt.
    eexists; exists []. split; [reflexivity|exists []; reflexivity].
  - rewrite !Iterate_unfold by exact Hge.
    destruct (Iterate_from_prefix h (WriteBatchInternal.Count b) _
                (skipn kHeader (rep_ b)) 0 s [] (Nat.le_refl _))
      as (st & calls & p & Hrec & Hp & Ht).
    exists st, calls. split; [exact Hrec|].
    destruct (Iterate_from (traced h) _ _ _ _) as [? [? c]|? [? c]|?];
      cbn [logged_calls].
    + rewrite Ht. exact Hp.
    + rewrite Ht. exact Hp.
    + exists calls. reflexivity.
Qed.

Lemma Iterate_from_recorder_OK (count : Z) : forall (n : nat) (input : bytes)
    (found : Z) (t t' : list Op),
  (length input <= n)%nat ->
  Iterate_from WriteBatch.recorder count input found t = Returned OK t' ->
  exists calls, t' = t ++ calls /\ count = found_after found calls.
Proof.
  assert (Hfin : forall found t t',
            WriteBatch.Iterate_finish count found t = Returned OK t' ->
            exists calls, t' = t ++ calls /\ count = found_after found calls).
  { intros found t t'. unfold WriteBatch.Iterate_finish.
    destruct (Z.eqb_spec found count) as [->|]; cbn [negb]; intros H;
      [|discriminate].
    injection H as <-. exists []. rewrite app_nil_r. auto. }
  induction n as [|n IH]; intros input found t t' Hn H.
  - destruct input; [|simpl in Hn; lia].
    rewrite Iterate_from_nil in H. apply Hfin. exact H.
  - destruct input as [|tag input].
    + rewrite Iterate_from_nil in H. apply Hfin. exact H.
    + rewrite Iterate_from_cons in H.
      cbn [WriteBatch.recorder Handler.Continue Handler.default_Continue] in H.
      pose proof (Iterate_body_decode WriteBatch.recorder tag input found t) as Hb.
      destruct (decode_record tag input) as [[op input']|] eqn:E.
      * rewrite Hb, deliver_recorder in H. cbn [WriteBatch.after_call] in H.
        apply decode_record_length in E. simpl in Hn.
        destruct (IH input' _ _ _ ltac:(lia) H) as (calls & -> & Hcount).
        exists (op :: calls). rewrite <- app_assoc. auto.
      * destruct Hb as [msg Hb]. rewrite Hb in H. discriminate.
Qed.

(** X6: if the replay of a batch through a recording handler returns OK,
    whatever the bytes of the batch, then its count field is the number
    of point mutations the handler has received (as an [int]). *)
Theorem Iterate_OK_count (b : WriteBatch) (ops : list Op) :
  WriteBatch.Iterate b WriteBatch.recorder [] = Returned OK ops ->
  WriteBatch.Count b = to_int (wrap32 (WriteBatch.mutations ops)).
Proof.
  intros H.
  destruct (Nat.lt_ge_cases (length (rep_ b)) kHeader) as [Hlt|Hge].
  - rewrite Iterate_too_small in H by exact Hlt. discriminate.
  - rewrite Iterate_unfold in H by exact Hge.
    destruct (Iterate_from_recorder_OK _ _ _ _ _ _ (Nat.le_refl _) H)
      as (calls & -> & Hc).
    unfold WriteBatch.Count. rewrite Hc. cbn [app].
    rewrite found_after_int_add by lia. unfold int_add.
    rewrite Z.add_0_l. reflexivity.
Qed.

Lemma Iterate_OK_count_witness :
  WriteBatch.Iterate (WriteBatch.apply_ops example_ops WriteBatch.new)
    WriteBatch.recorder [] = Returned OK example_ops /\
  WriteBatch.Count (WriteBatch.apply_ops example_ops WriteBatch.new) = 3.
Proof.
  assert (H : WriteBatch.Iterate (WriteBatch.apply_ops example_ops WriteBatch.new)
                WriteBatch.recorder [] = Returned OK example_ops)
    by (vm_compute; reflexivity).
  split; [exact H|].
  exact (Iterate_OK_count _ _ H).
Defined.

(** ** Append and replay *)

Lemma int_add_to_int_r (a c : Z) : int_add a (to_int (wrap32 c)) = int_add a c.
Proof.
  unfold int_add. f_equal. unfold wrap32 at 1 3.
  rewrite Z.add_mod by lia.
  fold (wrap32 (to_int (wrap32 c))). rewrite wrap32_to_int, wrap32_idem.
  unfold wrap32. rewrite <- Z.add_mod by lia. reflexivity.
Qed.

Lemma encode_ops_app (ops1 ops2 : list Op) :
  encode_ops (ops1 ++ ops2) = encode_ops ops1 ++ encode_ops ops2.
Proof. unfold encode_ops. apply flat_map_app. Qed.

Lemma Append_rep (dst src : WriteBatch) :
  (kHeader <= length (rep_ dst))%nat ->
  (kHeader <= length (rep_ (WriteBatchInternal.Append dst src)))%nat /\
  WriteBatchInternal.Count (WriteBatchInternal.Append dst src)
    = int_add (WriteBatchInternal.Count dst) (WriteBatchInternal.Count src) /\
  skipn kHeader (rep_ (WriteBatchInternal.Append dst src))
    = skipn kHeader (rep_ dst) ++ skipn kHeader (rep_ src).
Proof.
  intros Hd. unfold kHeader in *.
  set (n := int_add (WriteBatchInternal.Count dst) (WriteBatchInternal.Count src)).
  set (dst1 := WriteBatchInternal.SetCount dst n).
  assert (Hr : rep_ (WriteBatchInternal.Append dst src)
               = rep_ dst1 ++ skipn 12 (rep_ src)) by reflexivity.
  assert (H1 : (12 <= length (rep_ dst1))%nat)
    by (unfold dst1; rewrite SetCount_length; unfold kHeader; lia).
  split; [rewrite Hr, length_app; lia|]. split.
  - rewrite (Count_ext _ {| rep_ := rep_ dst1 ++ skipn 12 (rep_ src) |} Hr).
    rewrite Count_app by exact H1. unfold dst1. rewrite Count_SetCount by lia.
    unfold n, int_add. rewrite wrap32_to_int, wrap32_idem. reflexivity.
  - rewrite Hr, skipn_app.
    replace (12 - length (rep_ dst1))%nat with 0%nat by lia.
    rewrite skipn_O. f_equal. apply (SetCount_skipn12 dst). lia.
Qed.

(** X7: [Append] composes with replay: when [dst] and [src] were built by
    the calls [ops1] and [ops2] on fresh batches (strings shorter than
    2^32 bytes), the replay of [Append(dst, src)] through a recording
    handler succeeds and delivers [ops1] followed by [ops2]. *)
Theorem Append_replay (ops1 ops2 : list Op) :
  Forall small_op ops1 -> Forall small_op ops2 ->
  WriteBatch.Iterate
    (WriteBatchInternal.Append (WriteBatch.apply_ops ops1 WriteBatch.new)
                               (WriteBatch.apply_ops ops2 WriteBatch.new))
    WriteBatch.recorder []
  = Returned OK (ops1 ++ ops2).
Proof.
  intros H1 H2.
  destruct (Clear_rep {| rep_ := [] |}) as (Hl & Hbody & Hcount).
  fold WriteBatch.new in Hl, Hbody, Hcount.
  destruct (apply_ops_rep ops1 _ Hl) as (_ & Hc1 & Hr1 & Hl1).
  destruct (apply_ops_rep ops2 _ Hl) as (_ & Hc2 & Hr2 & Hl2).
  destruct (Append_rep (WriteBatch.apply_ops ops1 WriteBatch.new)
              (WriteBatch.apply_ops ops2 WriteBatch.new) Hl1) as (Hla & Hca & Hra).
  rewrite Iterate_unfold by exact Hla.
  rewrite Hra, Hca, Hr1, Hr2, Hc1, Hc2, Hbody, Hcount. cbn [app].
  rewrite <- encode_ops_app, <- (app_nil_r (encode_ops (ops1 ++ ops2))).
  rewrite Iterate_from_encode_ops;
    [|intros s; reflexivity|apply Forall_app; auto].
  rewrite deliver_all_recorder, Iterate_from_nil, found_after_int_add by lia.
  rewrite mutations_app.
  unfold int_add at 3. rewrite Z.add_0_l, int_add_to_int_r, int_add_assoc.
  unfold WriteBatch.Iterate_finish. rewrite Z.eqb_refl. reflexivity.
Qed.

Lemma Append_replay_witness :
  Forall small_op example_ops /\
  Forall small_op [OpDelete ["z"%byte]] /\
  WriteBatch.Iterate
    (WriteBatchInternal.Append
       (WriteBatch.apply_ops example_ops WriteBatch.new)
       (WriteBatch.apply_ops [OpDelete ["z"%byte]] WriteBatch.new))
    WriteBatch.recorder []
  = Returned OK (example_ops ++ [OpDelete ["z"%byte]]).
Proof.
  assert (H2 : Forall small_op [OpDelete ["z"%byte]]) by (repeat constructor).
  split; [exact small_op_example|]. split; [exact H2|].
  exact (Append_replay example_ops [OpDelete ["z"%byte]] small_op_example H2).
Defined.

(** ** The applier on a whole batch *)

Lemma wrap64_idem_add (a b : Z) : wrap64 (wrap64 a + b) = wrap64 (a + b).
Proof. unfold wrap64. apply Zplus_mod_idemp_l. Qed.

Lemma wrap64_small (z : Z) : 0 <= z < 2 ^ 64 -> wrap64 z = z.
Proof. unfold wrap64. intros H. apply Z.mod_small. exact H. Qed.

Lemma add_all_sequence (C : Collaborators) (ops : list Op) :
  forall (seq : Z) (mem : MemTable C),
  0 <= seq < 2 ^ 64 ->
  fst (add_all C ops seq mem) = wrap64 (seq + WriteBatch.mutations ops).
Proof.
  induction ops as [|op ops IH]; intros seq mem Hs.
  - simpl. rewrite Z.add_0_r, wrap64_small by exact Hs. reflexivity.
  - assert (Hw : 0 <= wrap64 (seq + 1) < 2 ^ 64)
      by (unfold wrap64; apply Z.mod_pos_bound; lia).
    rewrite mutations_cons.
    destruct op; cbn [add_all is_mutation];
      rewrite IH by assumption;
      rewrite ?wrap64_idem_add; f_equal; lia.
Qed.

Lemma deliver_all_plain (C : Collaborators) (options_ : Options) (has_db : bool)
    (ops : list Op) :
  inplace_update_support options_ = false ->
  max_successive_merges options_ <= 0 ->
  forall s : MemTableInserter.t C,
  deliver_all (MemTableInserter.handler C options_ has_db false) ops s
  = Normal (MemTableInserter.Build_t C
              (fst (add_all C ops (MemTableInserter.sequence_ s)
                      (MemTableInserter.mem_ s)))
              (snd (add_all C ops (MemTableInserter.sequence_ s)
                      (MemTableInserter.mem_ s)))
              (MemTableInserter.ticks_ s)).
Proof.
  intros Hi Hm. induction ops as [|op ops IH]; intros s.
  - destruct s; reflexivity.
  - cbn [deliver_all].
    destruct op as [key value|key|key value|blob];
      cbn [deliver MemTableInserter.handler Handler.Put Handler.Delete
             Handler.Merge Handler.LogData add_all].
    + unfold MemTableInserter.Put. rewrite Hi. cbn [negb]. rewrite IH. reflexivity.
    + unfold MemTableInserter.Delete. rewrite IH. reflexivity.
    + unfold MemTableInserter.Merge. rewrite perform_merge_spec.
      destruct (Z.ltb_spec 0 (max_successive_merges options_)); [lia|].
      cbn [andb]. rewrite IH. reflexivity.
    + unfold Handler.default_LogData. rewrite IH. reflexivity.
Qed.

(** X8: with in-place update off, no successive-merge threshold and no
    delete filtering (the values of a default [Options]), [InsertInto] on
    a batch whose body encodes the records [ops] adds one table entry for
    each point mutation, in order: a Value entry for a Put, a Deletion
    entry with an empty value for a Delete, a Merge entry for a Merge, the
    first at the batch's sequence number and each next one at the
    following number; a blob adds nothing and takes no number.  The
    running sequence ends at the batch's sequence number plus the number
    of point mutations, and the status is that of the count check. *)
Theorem InsertInto_plain (C : Collaborators) (options_ : Options) (has_db : bool)
    (b : WriteBatch) (hdr : bytes) (ops : list Op) (mem : MemTable C) :
  inplace_update_support options_ = false ->
  max_successive_merges options_ <= 0 ->
  rep_ b = hdr ++ encode_ops ops ->
  length hdr = kHeader ->
  Forall small_op ops ->
  let final := add_all C ops (WriteBatchInternal.Sequence b) mem in
  MemTableInserter.InsertInto C options_ has_db false b mem
  = Returned (if WriteBatch.Count b =? to_int (wrap32 (WriteBatch.mutations ops))
              then OK else Corruption "WriteBatch has wrong count")
      (MemTableInserter.Build_t C (fst final) (snd final) []) /\
  fst final = wrap64 (WriteBatchInternal.Sequence b + WriteBatch.mutations ops).
Proof.
  intros Hi Hm Hrep Hhdr Hs final. split.
  - unfold MemTableInserter.InsertInto.
    rewrite <- (app_nil_r (encode_ops ops)) in Hrep.
    rewrite (Iterate_encoded_prefix
               (MemTableInserter.handler C options_ has_db false)
               b hdr ops [] _ (fun s => eq_refl) Hrep Hhdr Hs).
    rewrite (deliver_all_plain C options_ has_db ops Hi Hm).
    rewrite Iterate_from_nil. apply Iterate_finish_count.
  - apply add_all_sequence. apply Sequence_range.
Qed.

Lemma InsertInto_plain_witness :
  inplace_update_support default_Options = false /\
  max_successive_merges default_Options <= 0 /\
  Forall small_op example_ops /\
  MemTableInserter.InsertInto ListTable.collaborators default_Options false false
    (WriteBatch.apply_ops example_ops
       (WriteBatchInternal.SetSequence WriteBatch.new 100)) []
  = Returned OK
      (MemTableInserter.Build_t ListTable.collaborators 103
         [(102, TypeMerge, ["c"%byte], ["+"%byte; "1"%byte]);
          (101, TypeDeletion, ["b"%byte], []);
          (100, TypeValue, ["a"%byte], ["1"%byte])] []).
Proof.
  assert (Hm : max_successive_merges default_Options <= 0) by (simpl; lia).
  split; [reflexivity|]. split; [exact Hm|]. split; [exact small_op_example|].
  exact (proj1 (InsertInto_plain ListTable.collaborators default_Options false
           (WriteBatch.apply_ops example_ops
              (WriteBatchInternal.SetSequence WriteBatch.new 100))
           [x64; x00; x00; x00; x00; x00; x00; x00; x03; x00; x00; x00]
           example_ops [] eq_refl Hm eq_refl eq_refl small_op_example)).
Defined.

Lemma deliver_all_sequence (C : Collaborators) (options_ : Options)
    (has_db : bool) (ops : list Op) :
  forall s s' : MemTableInserter.t C,
  0 <= MemTableInserter.sequence_ s < 2 ^ 64 ->
  deliver_all (MemTableInserter.handler C options_ has_db false) ops s = Normal s' ->
  MemTableInserter.sequence_ s'
  = wrap64 (MemTableInserter.sequence_ s + WriteBatch.mutations ops).
Proof.
  induction ops as [|op ops IH]; intros s s' Hs H.
  - injection H as <-. simpl. rewrite Z.add_0_r, wrap64_small by exact Hs.
    reflexivity.
  - cbn [deliver_all] in H.
    destruct (deliver (MemTableInserter.handler C options_ has_db false) op s)
      as [s1| |] eqn:E; try discriminate.
    assert (Hw : forall z, 0 <= wrap64 z < 2 ^ 64)
      by (intros z; unfold wrap64; apply Z.mod_pos_bound; lia).
    rewrite mutations_cons.
    destruct op as [key value|key|key value|blob];
      cbn [deliver MemTableInserter.handler Handler.Put Handler.Delete
             Handler.Merge Handler.LogData is_mutation] in *.
    + apply Put_advances in E.
      rewrite (IH s1 s') by (rewrite ?E; auto).
      rewrite E, wrap64_idem_add. f_equal. lia.
    + apply Delete_sequence in E. cbn [andb] in E.
      rewrite (IH s1 s') by (rewrite ?E; auto).
      rewrite E, wrap64_idem_add. f_equal. lia.
    + apply Merge_advances in E.
      rewrite (IH s1 s') by (rewrite ?E; auto).
      rewrite E, wrap64_idem_add. f_equal. lia.
    + injection E as <-. rewrite (IH s s') by auto. f_equal.
Qed.

(** X9: without delete filtering, whatever the in-place-update and merge
    policies and whatever they decide record by record, an [InsertInto]
    that returns on a batch whose body encodes the records [ops] leaves
    the running sequence at the batch's sequence number plus the number
    of point mutations in [ops] (modulo 2^64): every Put, Delete and Merge
    takes one number, written to the table or not, and a blob none. *)
Theorem InsertInto_sequence (C : Collaborators) (options_ : Options)
    (has_db : bool) (b : WriteBatch) (hdr : bytes) (ops : list Op)
    (mem : MemTable C) (st : Status) (s' : MemTableInserter.t C) :
  rep_ b = hdr ++ encode_ops ops ->
  length hdr = kHeader ->
  Forall small_op ops ->
  MemTableInserter.InsertInto C options_ has_db false b mem = Returned st s' ->
  MemTableInserter.sequence_ s'
  = wrap64 (WriteBatchInternal.Sequence b + WriteBatch.mutations ops).
Proof.
  intros Hrep Hhdr Hs H. unfold MemTableInserter.InsertInto in H.
  rewrite <- (app_nil_r (encode_ops ops)) in Hrep.
  rewrite (Iterate_encoded_prefix
             (MemTableInserter.handler C options_ has_db false)
             b hdr ops [] _ (fun s => eq_refl) Hrep Hhdr Hs) in H.
  destruct (deliver_all _ ops _) as [s1| |] eqn:E; try discriminate.
  rewrite Iterate_from_nil, Iterate_finish_count in H.
  injection H as _ <-.
  apply deliver_all_sequence in E; [exact E|apply Sequence_range].
Qed.

Lemma InsertInto_sequence_witness :
  Forall small_op [OpMerge ["k"%byte] ["x"%byte]; OpLogData ["n"%byte];
                   OpMerge ["k"%byte] ["y"%byte]] /\
  MemTableInserter.InsertInto ListTable.collaborators (ListTable.merging_options 1)
    true false
    (WriteBatch.apply_ops
       [OpMerge ["k"%byte] ["x"%byte]; OpLogData ["n"%byte];
        OpMerge ["k"%byte] ["y"%byte]]
       (WriteBatchInternal.SetSequence WriteBatch.new 100)) []
  = Returned OK
      (MemTableInserter.Build_t ListTable.collaborators 102
         [(101, TypeValue, ["k"%byte], ["y"%byte]);
          (100, TypeMerge, ["k"%byte], ["x"%byte])] []) /\
  102 = wrap64 (100 + 2).
Proof.
  assert (Hs : Forall small_op [OpMerge ["k"%byte] ["x"%byte]; OpLogData ["n"%byte];
                                OpMerge ["k"%byte] ["y"%byte]])
    by (repeat constructor).
  assert (H : MemTableInserter.InsertInto ListTable.collaborators
                (ListTable.merging_options 1) true false
                (WriteBatch.apply_ops
                   [OpMerge ["k"%byte] ["x"%byte]; OpLogData ["n"%byte];
                    OpMerge ["k"%byte] ["y"%byte]]
                   (WriteBatchInternal.SetSequence WriteBatch.new 100)) []
              = Returned OK
                  (MemTableInserter.Build_t ListTable.collaborators 102
                     [(101, TypeValue, ["k"%byte], ["y"%byte]);
                      (100, TypeMerge, ["k"%byte], ["x"%byte])] []))
    by (vm_compute; reflexivity).
  split; [exact Hs|]. split; [exact H|].
  exact (InsertInto_sequence ListTable.collaborators (ListTable.merging_options 1)
           true
           (WriteBatch.apply_ops
              [OpMerge ["k"%byte] ["x"%byte]; OpLogData ["n"%byte];
               OpMerge ["k"%byte] ["y"%byte]]
              (WriteBatchInternal.SetSequence WriteBatch.new 100))
           [x64; x00; x00; x00; x00; x00; x00; x00; x02; x00; x00; x00]
           [OpMerge ["k"%byte] ["x"%byte]; OpLogData ["n"%byte];
            OpMerge ["k"%byte] ["y"%byte]]
           [] OK _ eq_refl eq_refl Hs H).
Defined.

(** ** The batches of the stress test *)

(** X10: for a key and a value under 2^32 - 1 bytes, the batch [MultiPut]
    builds has count 10 and is replayed as ten Puts (ten Merges when
    [FLAGS_use_merge] is set) of the value prefixed by a digit under the
    key prefixed by the same digit, the digits going from 9 down to 0. *)
Theorem MultiPut_batch_replay (use_merge : bool) (key value : bytes) :
  Z.of_nat (length key) < 2 ^ 32 - 1 ->
  Z.of_nat (length value) < 2 ^ 32 - 1 ->
  WriteBatch.Count (StressTest.MultiPut_batch use_merge key value) = 10 /\
  WriteBatch.Iterate (StressTest.MultiPut_batch use_merge key value)
    WriteBatch.recorder []
  = Returned OK
      (map (fun d => if use_merge then OpMerge (d :: key) (d :: value)
                     else OpPut (d :: key) (d :: value))
         StressTest.MultiPut_prefixes).
Proof.
  intros Hk Hv.
  set (ops := map (fun d => if use_merge then OpMerge (d :: key) (d :: value)
                            else OpPut (d :: key) (d :: value))
                StressTest.MultiPut_prefixes).
  assert (Hb : StressTest.MultiPut_batch use_merge key value
               = WriteBatch.apply_ops ops (WriteBatch.Clear {| rep_ := [] |}))
    by (destruct use_merge; reflexivity).
  assert (Hs : Forall small_op ops).
  { unfold ops. apply Forall_map, Forall_forall. intros d _.
    destruct use_merge; cbn [small_op]; unfold small;
      cbn [length]; rewrite !Nat2Z.inj_succ; lia. }
  rewrite Hb. split.
  - destruct (Clear_rep {| rep_ := [] |}) as (Hl & _ & Hcount).
    destruct (apply_ops_rep ops _ Hl) as (_ & Hc & _).
    unfold WriteBatch.Count. rewrite Hc, Hcount.
    destruct use_merge; reflexivity.
  - apply Iterate_recorder_apply_ops. exact Hs.
Qed.

Lemma MultiPut_batch_replay_witness :
  Z.of_nat (length ["k"%byte]) < 2 ^ 32 - 1 /\
  Z.of_nat (length ["v"%byte]) < 2 ^ 32 - 1 /\
  WriteBatch.Count (StressTest.MultiPut_batch true ["k"%byte] ["v"%byte]) = 10.
Proof.
  assert (Hk : Z.of_nat (length ["k"%byte]) < 2 ^ 32 - 1) by reflexivity.
  assert (Hv : Z.of_nat (length ["v"%byte]) < 2 ^ 32 - 1) by reflexivity.
  split; [exact Hk|]. split; [exact Hv|].
  exact (proj1 (MultiPut_batch_replay true ["k"%byte] ["v"%byte] Hk Hv)).
Defined.

(** X11: for a key under 2^32 - 1 bytes, the batch [MultiDelete] builds
    has count 10 and is replayed as ten Deletes of the key prefixed by the
    digits 9, 7, 5, 3, 1, 8, 6, 4, 2, 0, in this order. *)
Theorem MultiDelete_batch_replay (key : bytes) :
  Z.of_nat (length key) < 2 ^ 32 - 1 ->
  WriteBatch.Count (StressTest.MultiDelete_batch key) = 10 /\
  WriteBatch.Iterate (StressTest.MultiDelete_batch key) WriteBatch.recorder []
  = Returned OK (map (fun d => OpDelete (d :: key)) StressTest.MultiDelete_prefixes).
Proof.
  intros Hk.
  set (ops := map (fun d => OpDelete (d :: key)) StressTest.MultiDelete_prefixes).
  assert (Hb : StressTest.MultiDelete_batch key
               = WriteBatch.apply_ops ops (WriteBatch.Clear {| rep_ := [] |}))
    by reflexivity.
  assert (Hs : Forall small_op ops).
  { unfold ops. apply Forall_map, Forall_forall. intros d _.
    cbn [small_op]; unfold small; cbn [length]; rewrite !Nat2Z.inj_succ; lia. }
  rewrite Hb. split.
  - destruct (Clear_rep {| rep_ := [] |}) as (Hl & _ & Hcount).
    destruct (apply_ops_rep ops _ Hl) as (_ & Hc & _).
    unfold WriteBatch.Count. rewrite Hc, Hcount. reflexivity.
  - apply Iterate_recorder_apply_ops. exact Hs.
Qed.

Lemma MultiDelete_batch_replay_witness :
  Z.of_nat (length ["k"%byte]) < 2 ^ 32 - 1 /\
  WriteBatch.Count (StressTest.MultiDelete_batch ["k"%byte]) = 10.
Proof.
  assert (Hk : Z.of_nat (length ["k"%byte]) < 2 ^ 32 - 1) by reflexivity.
  split; [exact Hk|].
  exact (proj1 (MultiDelete_batch_replay ["k"%byte] Hk)).
Defined.

(** ** The TTL layer *)

Lemma strip_operands_spec (operands : list bytes) : forall acc,
  TtlMergeOperator.strip_operands operands acc
  = if forallb (fun o => negb (length o <? DBWithTTL.kTSLength)%nat) operands
    then Some (acc ++ map TtlMergeOperator.without_ts operands)
    else None.
Proof.
  induction operands as [|o operands IH]; intros acc;
    cbn [TtlMergeOperator.strip_operands forallb map].
  - rewrite app_nil_r. reflexivity.
  - destruct (length o <? DBWithTTL.kTSLength)%nat; cbn [negb andb];
      [reflexivity|].
    rewrite IH, <- app_assoc. reflexivity.
Qed.

Lemma long_operands (operands : list bytes) :
  forallb (fun o => negb (length o <? DBWithTTL.kTSLength)%nat) operands = true
  <-> Forall (fun o => (DBWithTTL.kTSLength <= length o)%nat) operands.
Proof.
  rewrite forallb_forall, Forall_forall.
  split; intros H o Ho; specialize (H o Ho);
    destruct (Nat.ltb_spec (length o) DBWithTTL.kTSLength);
    simpl in *; try lia; try discriminate; reflexivity.
Qed.

(** X12: [TtlMergeOperator::FullMerge] returns true with merged value
    [nv] exactly when the existing value (if there is one) and every
    operand have at least the 4 bytes of a timestamp, the user's operator
    returns true on the existing value and the operands without their
    timestamps (in the same order), the current time is available, and
    [nv] is the user's result followed by the current time as 4 bytes. *)
Theorem TtlFullMerge_spec
    (user_FullMerge : bytes -> option bytes -> list bytes -> option bytes)
    (curtime : option Z) (key : bytes) (existing_value : option bytes)
    (operands : list bytes) (nv : bytes) :
  fst (TtlMergeOperator.FullMerge user_FullMerge curtime key existing_value operands)
    = Some nv
  <->
  match existing_value with
  | Some e => (DBWithTTL.kTSLength <= length e)%nat
  | None => True
  end /\
  Forall (fun o => (DBWithTTL.kTSLength <= length o)%nat) operands /\
  exists u t,
    user_FullMerge key (option_map TtlMergeOperator.without_ts existing_value)
      (map TtlMergeOperator.without_ts operands) = Some u /\
    curtime = Some t /\
    nv = u ++ Coding.EncodeFixed32 t.
Proof.
  unfold TtlMergeOperator.FullMerge.
  rewrite strip_operands_spec. cbn [app].
  rewrite <- long_operands.
  match goal with |- context [forallb ?f operands] => destruct (forallb f operands) end.
  - destruct existing_value as [e|]; cbn [option_map].
    + destruct (Nat.ltb_spec (length e) DBWithTTL.kTSLength) as [Hlt|Hge].
      * cbn [fst]. split; [discriminate|]. intros (H & _). lia.
      * destruct (user_FullMerge key _ _) as [u|].
        -- unfold TtlMergeOperator.augment. destruct curtime as [t|]; cbn [fst].
           ++ split.
              ** intros H. injection H as <-. repeat split; eauto.
              ** intros (_ & _ & u' & t' & Hu & Ht & ->).
                 injection Hu as <-. injection Ht as <-. reflexivity.
           ++ split; [discriminate|].
              intros (_ & _ & u' & t' & _ & Ht & _). discriminate.
        -- cbn [fst]. split; [discriminate|].
           intros (_ & _ & u' & t' & Hu & _). discriminate.
    + destruct (user_FullMerge key _ _) as [u|].
      * unfold TtlMergeOperator.augment. destruct curtime as [t|]; cbn [fst].
        -- split.
           ++ intros H. injection H as <-. repeat split; eauto.
           ++ intros (_ & _ & u' & t' & Hu & Ht & ->).
                 injection Hu as <-. injection Ht as <-. reflexivity.
        -- split; [discriminate|].
           intros (_ & _ & u' & t' & _ & Ht & _). discriminate.
      * cbn [fst]. split; [discriminate|].
        intros (_ & _ & u' & t' & Hu & _). discriminate.
  - destruct (match existing_value with
              | Some e => (length e <? DBWithTTL.kTSLength)%nat
              | None => false
              end); cbn [fst];
      (split; [discriminate|intros (_ & H & _); discriminate]).
Qed.

Lemma timestamp_app (u : bytes) (t : Z) :
  TtlIterator.timestamp (u ++ Coding.EncodeFixed32 t) = to_int (wrap32 t) /\
  TtlMergeOperator.without_ts (u ++ Coding.EncodeFixed32 t) = u /\
  (DBWithTTL.kTSLength <= length (u ++ Coding.EncodeFixed32 t))%nat.
Proof.
  unfold TtlIterator.timestamp, TtlMergeOperator.without_ts, DBWithTTL.kTSLength.
  rewrite length_app, EncodeFixed32_length.
  replace (length u + 4 - 4)%nat with (length u) by lia.
  rewrite skipn_app, Nat.sub_diag, skipn_O, skipn_all.
  rewrite firstn_app, Nat.sub_diag, firstn_O, firstn_all, app_nil_r.
  cbn [app]. rewrite <- (app_nil_r (Coding.EncodeFixed32 t)).
  rewrite DecodeFixed32_EncodeFixed32. repeat split. lia.
Qed.

(** X13: a value merged by [TtlMergeOperator::FullMerge] has at least the
    4 bytes of a timestamp; [TtlIterator::timestamp] reads from it the
    current time of the merge (as an [int32_t]); and without these bytes
    it is the result of the user's operator. *)
Theorem TtlFullMerge_timestamp
    (user_FullMerge : bytes -> option bytes -> list bytes -> option bytes)
    (curtime : option Z) (key : bytes) (existing_value : option bytes)
    (operands : list bytes) (nv : bytes) :
  fst (TtlMergeOperator.FullMerge user_FullMerge curtime key existing_value operands)
    = Some nv ->
  (DBWithTTL.kTSLength <= length nv)%nat /\
  (exists t, curtime = Some t /\ TtlIterator.timestamp nv = to_int (wrap32 t)) /\
  user_FullMerge key (option_map TtlMergeOperator.without_ts existing_value)
    (map TtlMergeOperator.without_ts operands)
  = Some (TtlMergeOperator.without_ts nv).
Proof.
  intros H.
  assert (Hshape : exists u t,
            user_FullMerge key (option_map TtlMergeOperator.without_ts existing_value)
              (map TtlMergeOperator.without_ts operands) = Some u /\
            curtime = Some t /\ nv = u ++ Coding.EncodeFixed32 t).
  { revert H. unfold TtlMergeOperator.FullMerge.
    rewrite strip_operands_spec. cbn [app].
    destruct (match existing_value with
              | Some e => (length e <? DBWithTTL.kTSLength)%nat
              | None => false
              end); [discriminate|].
    match goal with |- context [forallb ?f operands] => destruct (forallb f operands) end;
      [|discriminate].
    assert (E : match existing_value with
                | Some e => user_FullMerge key (Some (TtlMergeOperator.without_ts e))
                              (map TtlMergeOperator.without_ts operands)
                | None => user_FullMerge key None
                            (map TtlMergeOperator.without_ts operands)
                end
                = user_FullMerge key
                    (option_map TtlMergeOperator.without_ts existing_value)
                    (map TtlMergeOperator.without_ts operands))
      by (destruct existing_value; reflexivity).
    rewrite E. clear E.
    destruct (user_FullMerge key _ _) as [u|]; cbn [fst]; [|discriminate].
    unfold TtlMergeOperator.augment.
    destruct curtime as [t|]; cbn [fst]; [|discriminate].
    intros H. injection H as <-. eauto. }
  destruct Hshape as (u & t & Hu & Ht & ->).
  destruct (timestamp_app u t) as (H1 & H2 & H3).
  split; [exact H3|]. split; [eauto|]. rewrite H2. exact Hu.
Qed.

Lemma TtlFullMerge_timestamp_witness :
  fst (TtlMergeOperator.FullMerge ListTable.concat_merge (Some 1400000000)
         ["k"%byte]
         (Some ["a"%byte; x01; x00; x00; x00])
         [["b"%byte; "c"%byte; x02; x00; x00; x00]])
    = Some ["a"%byte; "b"%byte; "c"%byte; x00; x4e; x72; x53] /\
  TtlIterator.timestamp ["a"%byte; "b"%byte; "c"%byte; x00; x4e; x72; x53]
    = 1400000000.
Proof.
  assert (H : fst (TtlMergeOperator.FullMerge ListTable.concat_merge
                     (Some 1400000000) ["k"%byte]
                     (Some ["a"%byte; x01; x00; x00; x00])
                     [["b"%byte; "c"%byte; x02; x00; x00; x00]])
              = Some ["a"%byte; "b"%byte; "c"%byte; x00; x4e; x72; x53])
    by (vm_compute; reflexivity).
  split; [exact H|].
  destruct (TtlFullMerge_timestamp _ _ _ _ _ _ H) as (_ & (t & Ht & Hts) & _).
  rewrite Hts. injection Ht as <-. reflexivity.
Defined.

(** X14: [TtlMergeOperator::PartialMergeMulti] returns true with value
    [nv] exactly when every operand has at least the 4 bytes of a
    timestamp, the user's operator returns true on the operands without
    their timestamps (in the same order), the current time is available,
    and [nv] is the user's result followed by the current time as 4
    bytes. *)
Theorem TtlPartialMergeMulti_spec
    (user_PartialMergeMulti : bytes -> list bytes -> option bytes)
    (curtime : option Z) (key : bytes) (operand_list : list bytes) (nv : bytes) :
  fst (TtlMergeOperator.PartialMergeMulti user_PartialMergeMulti curtime key
         operand_list) = Some nv
  <->
  Forall (fun o => (DBWithTTL.kTSLength <= length o)%nat) operand_list /\
  exists u t,
    user_PartialMergeMulti key (map TtlMergeOperator.without_ts operand_list)
      = Some u /\
    curtime = Some t /\
    nv = u ++ Coding.EncodeFixed32 t.
Proof.
  unfold TtlMergeOperator.PartialMergeMulti.
  rewrite strip_operands_spec. cbn [app].
  rewrite <- long_operands.
  match goal with
  | |- context [forallb ?f operand_list] => destruct (forallb f operand_list)
  end.
  - destruct (user_PartialMergeMulti key _) as [u|].
    + unfold TtlMergeOperator.augment. destruct curtime as [t|]; cbn [fst].
      * split.
        -- intros H. injection H as <-. repeat split; eauto.
        -- intros (_ & u' & t' & Hu & Ht & ->).
           injection Hu as <-. injection Ht as <-. reflexivity.
      * split; [discriminate|].
        intros (_ & u' & t' & _ & Ht & _). discriminate.
    + cbn [fst]. split; [discriminate|].
      intros (_ & u' & t' & Hu & _). discriminate.
  - cbn [fst]. split; [discriminate|intros (H & _); discriminate].
Qed.

(** X15: [TtlCompactionFilter::Filter] removes an entry exactly when it is
    stale or, not being stale, the user's filter removes its value taken
    without the timestamp; and when the entry is kept with a value the
    user's filter changed, the new value is the user's followed by the
    4-byte timestamp of the old value, so that [TtlIterator::timestamp]
    reads the same time from both. *)
Theorem TtlFilter_spec (IsStale : bytes -> Z -> bool) (ttl_ : Z)
    (user_filter : Z -> bytes -> bytes -> bytes -> bool -> TtlCompactionFilter.filter_result)
    (level : Z) (key old_val new_val : bytes) (value_changed : bool) :
  (DBWithTTL.kTSLength <= length old_val)%nat ->
  let r := TtlCompactionFilter.Filter IsStale ttl_ (Some user_filter)
             level key old_val new_val value_changed in
  let u := user_filter level key (TtlMergeOperator.without_ts old_val)
             new_val value_changed in
  fst (fst r) = IsStale old_val ttl_ || fst (fst u) /\
  (fst (fst r) = false -> snd r = true ->
   snd (fst r)
   = snd (fst u) ++ skipn (length old_val - DBWithTTL.kTSLength) old_val /\
   TtlIterator.timestamp (snd (fst r)) = TtlIterator.timestamp old_val).
Proof.
  intros Hlen r u. unfold r, TtlCompactionFilter.Filter.
  fold (TtlMergeOperator.without_ts old_val). fold u.
  destruct (IsStale old_val ttl_); cbn [orb fst snd].
  - split; [reflexivity|discriminate].
  - destruct u as [[remove nv] vc]. cbn [fst snd].
    destruct remove; cbn [fst snd]; [split; [reflexivity|discriminate]|].
    destruct vc; cbn [fst snd]; [|split; [reflexivity|discriminate]].
    split; [reflexivity|]. intros _ _. split; [reflexivity|].
    unfold TtlIterator.timestamp. rewrite length_app, length_skipn.
    unfold DBWithTTL.kTSLength in *.
    replace (length nv + (length old_val - (length old_val - 4)) - 4)%nat
      with (length nv) by lia.
    rewrite skipn_app, Nat.sub_diag, skipn_O, skipn_all. reflexivity.
Qed.

Lemma TtlFilter_spec_witness :
  (DBWithTTL.kTSLength <= length ["a"%byte; x00; x4e; x72; x53])%nat /\
  TtlCompactionFilter.Filter (fun _ _ => false) 60 (Some exclaim_filter) 0
    ["k"%byte] ["a"%byte; x00; x4e; x72; x53] [] false
  = (false, ["!"%byte; "a"%byte; x00; x4e; x72; x53], true) /\
  TtlIterator.timestamp ["!"%byte; "a"%byte; x00; x4e; x72; x53]
  = TtlIterator.timestamp ["a"%byte; x00; x4e; x72; x53].
Proof.
  assert (H : (DBWithTTL.kTSLength <= length ["a"%byte; x00; x4e; x72; x53])%nat)
    by (vm_compute; lia).
  split; [exact H|]. split; [reflexivity|].
  exact (proj2 (proj2 (TtlFilter_spec (fun _ _ => false) 60 exclaim_filter 0
                  ["k"%byte] ["a"%byte; x00; x4e; x72; x53] [] false H)
                  eq_refl eq_refl)).
Defined.

(** ** The property collectors *)

Lemma NotifyOnAdd_loop_spec {St : Type} (key value : bytes)
    (collectors : list (MetaBlocks.TablePropertiesCollector St * St)) :
  forall all_succeeded done log,
  MetaBlocks.NotifyOnAdd_loop key value collectors all_succeeded done log
  = (all_succeeded &&
     forallb (fun c => fst (MetaBlocks.Add (fst c) key value (snd c))) collectors,
     done ++ map (fun c => (fst c, snd (MetaBlocks.Add (fst c) key value (snd c))))
               collectors,
     log ++ map (fun c => MetaBlocks.LogPropertiesCollectionError "Add"
                            (MetaBlocks.Name (fst c)))
              (filter (fun c => negb (fst (MetaBlocks.Add (fst c) key value (snd c))))
                 collectors)).
Proof.
  induction collectors as [|[collector st] collectors IH];
    intros all_succeeded done log;
    cbn [MetaBlocks.NotifyOnAdd_loop forallb map filter fst snd].
  - rewrite andb_true_r, !app_nil_r. reflexivity.
  - destruct (MetaBlocks.Add collector key value st) as [ok st'].
    rewrite IH. cbn [fst snd]. rewrite <- !app_assoc, andb_assoc.
    destruct ok; cbn [negb map app]; rewrite <- ?app_assoc; reflexivity.
Qed.

(** X16: [NotifyCollectTableCollectorsOnAdd] calls [Add] of every
    collector once, in order, also after a collector has failed; it
    returns true exactly when every call succeeded, and logs one line,
    naming the collector, for each call that failed. *)
Theorem NotifyCollectTableCollectorsOnAdd_spec {St : Type} (key value : bytes)
    (collectors : list (MetaBlocks.TablePropertiesCollector St * St)) :
  MetaBlocks.NotifyCollectTableCollectorsOnAdd key value collectors
  = (forallb (fun c => fst (MetaBlocks.Add (fst c) key value (snd c))) collectors,
     map (fun c => (fst c, snd (MetaBlocks.Add (fst c) key value (snd c))))
       collectors,
     map (fun c => MetaBlocks.LogPropertiesCollectionError "Add"
                     (MetaBlocks.Name (fst c)))
       (filter (fun c => negb (fst (MetaBlocks.Add (fst c) key value (snd c))))
          collectors)).
Proof.
  unfold MetaBlocks.NotifyCollectTableCollectorsOnAdd.
  rewrite NotifyOnAdd_loop_spec. reflexivity.
Qed.

Example NotifyCollectTableCollectorsOnAdd_counting :
  let '(all_succeeded, after, log) :=
    MetaBlocks.NotifyCollectTableCollectorsOnAdd [] [] counting_collectors in
  all_succeeded = false /\
  map snd after = [1; 11; 21] /\
  log = ["[Warning] encountered error when calling TablePropertiesCollector::Add() with collector name: second"%string].
Proof. repeat split. Qed.

(** ** Corrupt tails and append-only mutations *)

(** X17: when the body of a batch is the encoding of the records [ops]
    followed by bytes that begin with a decode failure (an unassigned
    tag, or an assigned tag with a truncated or malformed payload), a
    handler that keeps the inherited [Continue] receives all of [ops]
    before the replay returns the corruption of that failure: the calls
    made before the error stay made. *)
Theorem Iterate_corrupt_tail {S : Type} (h : Handler.t S) (b : WriteBatch)
    (hdr : bytes) (ops : list Op) (tail : bytes) (msg : string) (s : S) :
  always_continues h ->
  rep_ b = hdr ++ encode_ops ops ++ tail ->
  length hdr = kHeader ->
  Forall small_op ops ->
  decode_failure tail = Some msg ->
  WriteBatch.Iterate b h s
  = match deliver_all h ops s with
    | Normal s' => Returned (Corruption msg) s'
    | Thrown what s' => Raised what s'
    | Fatal what => Aborted what
    end.
Proof.
  intros Hc Hrep Hhdr Hs Hd.
  rewrite (Iterate_encoded_prefix h b hdr ops tail s Hc Hrep Hhdr Hs).
  destruct (deliver_all h ops s) as [s'|what s'|what]; try reflexivity.
  destruct tail as [|tag tail]; [discriminate|].
  rewrite Iterate_from_cons, Hc.
  rewrite (decode_failure_Return h tag tail _ s' msg Hd). reflexivity.
Qed.

Lemma Iterate_corrupt_tail_witness :
  Forall small_op [OpPut ["a"%byte] ["1"%byte]] /\
  decode_failure [x00] = Some "bad WriteBatch Delete"%string /\
  MemTableInserter.InsertInto ListTable.collaborators default_Options false false
    {| rep_ := rep_ (WriteBatch.apply_ops [OpPut ["a"%byte] ["1"%byte]]
                       (WriteBatchInternal.SetSequence WriteBatch.new 100))
               ++ [x00] |} []
  = Returned (Corruption "bad WriteBatch Delete")
      (MemTableInserter.Build_t ListTable.collaborators 101
         [(100, TypeValue, ["a"%byte], ["1"%byte])] []).
Proof.
  assert (Hs : Forall small_op [OpPut ["a"%byte] ["1"%byte]]) by (repeat constructor).
  split; [exact Hs|]. split; [reflexivity|].
  exact (Iterate_corrupt_tail
           (MemTableInserter.handler ListTable.collaborators default_Options
              false false)
           {| rep_ := rep_ (WriteBatch.apply_ops [OpPut ["a"%byte] ["1"%byte]]
                              (WriteBatchInternal.SetSequence WriteBatch.new 100))
                      ++ [x00] |}
           [x64; x00; x00; x00; x00; x00; x00; x00; x01; x00; x00; x00]
           [OpPut ["a"%byte] ["1"%byte]] [x00] "bad WriteBatch Delete"
           (MemTableInserter.Build_t ListTable.collaborators 100 [] [])
           (fun s => eq_refl) eq_refl eq_refl Hs eq_refl).
Defined.

(** X18: the mutation calls are append-only: on a batch with its header,
    each of Put, Delete, Merge and PutLogData leaves the sequence-number
    bytes and the records already in the batch as they are and puts the
    bytes of its one record behind them; Put, Delete and Merge add one to
    the count (in [int] arithmetic) and PutLogData leaves it. *)
Theorem mutation_append_only (b : WriteBatch) (op : Op) :
  (kHeader <= length (rep_ b))%nat ->
  let b' := WriteBatch.apply_op b op in
  firstn 8 (rep_ b') = firstn 8 (rep_ b) /\
  skipn kHeader (rep_ b') = skipn kHeader (rep_ b) ++ encode_op op /\
  length (rep_ b') = (length (rep_ b) + length (encode_op op))%nat /\
  WriteBatch.Count b'
  = match op with
    | OpLogData _ => WriteBatch.Count b
    | _ => int_add (WriteBatch.Count b) 1
    end.
Proof.
  intros Hb b'. destruct (apply_op_spec b op Hb) as (Hf & Hc & Hs & _).
  split; [exact Hf|]. split; [exact Hs|]. split.
  - unfold b'. rewrite apply_op_rep, length_app.
    destruct (is_mutation op); [rewrite SetCount_length by exact Hb|]; reflexivity.
  - unfold WriteBatch.Count. fold b' in Hc. rewrite Hc.
    destruct op; cbn [is_mutation]; try reflexivity.
    apply int_add_0_r, Count_range.
Qed.

Lemma mutation_append_only_witness :
  (kHeader <= length (rep_ batch_7_2))%nat /\
  skipn kHeader (rep_ (WriteBatch.apply_op batch_7_2 (OpDelete ["z"%byte])))
  = skipn kHeader (rep_ batch_7_2) ++ [x00; x01; "z"%byte] /\
  WriteBatch.Count (WriteBatch.apply_op batch_7_2 (OpDelete ["z"%byte])) = 3.
Proof.
  assert (H : (kHeader <= length (rep_ batch_7_2))%nat) by (vm_compute; lia).
  destruct (mutation_append_only batch_7_2 (OpDelete ["z"%byte]) H)
    as (_ & Hs & _ & Hc).
  split; [exact H|]. split; [exact Hs|]. rewrite Hc. reflexivity.
Defined.

(** ** Replay reads the buffer and is determined by it (C6) *)








(** A handler that stops on its own state shows what the last part of C6
    needs: started in the state the first dispatch left, the second
    dispatch of the example batch makes no call. *)
Example second_dispatch_of_stopping_handler :
  WriteBatch.Iterate (WriteBatch.apply_ops example_ops WriteBatch.new)
    (traced (stop_after 1)) ([], [])
  = Returned (Corruption "WriteBatch has wrong count")
      ([OpPut ["a"%byte] ["1"%byte]], [OpPut ["a"%byte] ["1"%byte]]) /\
  WriteBatch.Iterate (WriteBatch.apply_ops example_ops WriteBatch.new)
    (traced (stop_after 1)) ([OpPut ["a"%byte] ["1"%byte]], [])
  = Returned (Corruption "WriteBatch has wrong count")
      ([OpPut ["a"%byte] ["1"%byte]], []).
Proof. split; vm_compute; reflexivity. Qed.

(** ** Eager resolution folds the pending operands (C8) *)


